(** * Address book (Task_1.py): fields, records, the directory and the
      upcoming-birthdays query

    A shallow embedding of the classes [Field], [Name], [Phone], [Birthday],
    [Record] and [AddressBook] of [Task_1.py].

    - Python strings are sequences of Unicode code points: [pystr].
    - Exceptions are values of [exn]; a computation that may raise returns a
      [result].
    - [Record] instances are mutable objects that are passed by reference
      (a handler mutates the object [book.find] returned): they live in a
      store indexed by object identity, and the directory's [data] maps a
      name to an identity.  Methods are computations in a state-and-exception
      monad [M] in which the store survives a raised exception.
    - The parts of the Python library the classes call ([re.fullmatch],
      [datetime.strptime], [date.replace], date subtraction, [strftime])
      are modelled after CPython's [re], [_strptime] and [datetime]
      modules. *)

From Stdlib Require Import ZArith NArith List String Ascii Lia Bool.
From stdpp Require Import base option list gmap.

(** ** Strings, exceptions *)

(** A Python [str]: the sequence of its code points. *)
Definition pystr : Type := list N.

(** The code points of an ASCII literal. *)
Definition str (s : string) : pystr :=
  List.map N_of_ascii (list_ascii_of_string s).

Inductive exn : Type :=
  | ValueError (msg : string).

Inductive result (A : Type) : Type :=
  | Ok (a : A)
  | Raise (e : exn).
Arguments Ok {A} a.
Arguments Raise {A} e.

Definition is_Raise {A} (r : result A) : Prop :=
  match r with Ok _ => False | Raise _ => True end.

#[global] Instance result_ret : MRet result := @Ok.
#[global] Instance result_bind : MBind result := fun A B f r =>
  match r with
  | Ok a => f a
  | Raise e => Raise e
  end.

#[global] Instance exn_eq_dec : EqDecision exn.
Proof. solve_decision. Defined.

(** ** Unicode decimal digits

    [\d] in a [str] pattern and [int()] both use [Py_UNICODE_ISDECIMAL] /
    [Py_UNICODE_TODECIMAL]: the characters of general category Nd.  They come
    in runs of ten consecutive code points valued 0 to 9; the table lists the
    first code point of every run (Unicode 14, the database of CPython
    3.11). *)

Definition decimal_runs : list N :=
  [ 0x30; 0x660; 0x6f0; 0x7c0; 0x966; 0x9e6; 0xa66; 0xae6; 0xb66; 0xbe6;
    0xc66; 0xce6; 0xd66; 0xde6; 0xe50; 0xed0; 0xf20; 0x1040; 0x1090;
    0x17e0; 0x1810; 0x1946; 0x19d0; 0x1a80; 0x1a90; 0x1b50; 0x1bb0;
    0x1c40; 0x1c50; 0xa620; 0xa8d0; 0xa900; 0xa9d0; 0xa9f0; 0xaa50;
    0xabf0; 0xff10; 0x104a0; 0x10d30; 0x11066; 0x110f0; 0x11136; 0x111d0;
    0x112f0; 0x11450; 0x114d0; 0x11650; 0x116c0; 0x11730; 0x118e0;
    0x11950; 0x11c50; 0x11d50; 0x11da0; 0x16a60; 0x16ac0; 0x16b50;
    0x1d7ce; 0x1d7d8; 0x1d7e2; 0x1d7ec; 0x1d7f6;
    0x1e140; 0x1e2f0; 0x1e950; 0x1fbf0 ]%N.

Fixpoint todecimal_in (runs : list N) (c : N) : option N :=
  match runs with
  | [] => None
  | z :: runs' =>
      if ((z <=? c) && (c <? z + 10))%N then Some (c - z)%N
      else todecimal_in runs' c
  end.

(** [Py_UNICODE_TODECIMAL]: the value of a decimal digit, [None] for any
    other character. *)
Definition Py_UNICODE_TODECIMAL (c : N) : option N :=
  todecimal_in decimal_runs c.

Definition Py_UNICODE_ISDECIMAL (c : N) : bool :=
  match Py_UNICODE_TODECIMAL c with Some _ => true | None => false end.

Arguments Py_UNICODE_ISDECIMAL : simpl never.

(** The ASCII digits ['0'] to ['9']. *)
Definition ascii_digit (c : N) : bool := ((48 <=? c) && (c <=? 57))%N.

(** ** Regular expressions ([re])

    The fragment of the pattern language that [r'\d{10}'] and the pattern
    [_strptime] builds for ["%d.%m.%Y"] use, with the backtracking matcher
    in continuation-passing style: alternatives are tried left to right and
    the first one whose continuation succeeds wins. *)

Inductive regex : Type :=
  | Chr (c : N)                      (* a literal character *)
  | Digit                            (* \d *)
  | Range (lo hi : N)                (* [lo-hi] *)
  | Cat (r1 r2 : regex)              (* r1r2 *)
  | Alt (r1 r2 : regex)              (* r1|r2 *)
  | Repeat (n : nat) (r : regex)     (* r{n} *)
  | Group (name : string) (r : regex). (* (?P<name>r) *)

(** The named groups of a match, the group closed last first. *)
Definition groups : Type := list (string * pystr).

(** A continuation receives the text the pattern consumed, the rest of
    the string and the groups. *)
Definition cont (X : Type) : Type := pystr -> pystr -> groups -> option X.

Definition one_char {X} (p : N -> bool) (s : pystr) (g : groups)
    (k : cont X) : option X :=
  match s with
  | c :: s' => if p c then k [c] s' g else None
  | [] => None
  end.

Fixpoint sre_match {X} (r : regex) (s : pystr) (g : groups) (k : cont X)
    {struct r} : option X :=
  match r with
  | Chr c => one_char (N.eqb c) s g k
  | Digit => one_char Py_UNICODE_ISDECIMAL s g k
  | Range lo hi => one_char (fun c => (lo <=? c) && (c <=? hi))%N s g k
  | Cat r1 r2 =>
      sre_match r1 s g (fun t1 s1 g1 =>
        sre_match r2 s1 g1 (fun t2 => k (t1 ++ t2)))
  | Alt r1 r2 =>
      match sre_match r1 s g k with
      | Some x => Some x
      | None => sre_match r2 s g k
      end
  | Repeat n r1 =>
      (fix rep (n : nat) (s : pystr) (g : groups) (k : cont X) : option X :=
         match n with
         | O => k [] s g
         | S n' =>
             sre_match r1 s g (fun t1 s1 g1 =>
               rep n' s1 g1 (fun t2 => k (t1 ++ t2)))
         end) n s g k
  | Group name r1 =>
      sre_match r1 s g (fun t s' g' => k t s' ((name, t) :: g'))
  end.

(** [re.match]: the first match at the start of the string; the result is
    the unmatched rest of the string and the groups. *)
Definition re_match (r : regex) (s : pystr) : option (pystr * groups) :=
  sre_match r s [] (fun _ s' g => Some (s', g)).

(** [re.fullmatch]: the first match that ends at the end of the string. *)
Definition re_fullmatch (r : regex) (s : pystr) : option groups :=
  sre_match r s []
    (fun _ s' g => match s' with [] => Some g | _ => None end).

(** The texts a pattern matches, with the groups it closes on the way:
    the declarative reading of a pattern, without the matcher's order of
    choices. *)
Inductive matches : regex -> pystr -> groups -> Prop :=
  | matches_Chr c : matches (Chr c) [c] []
  | matches_Digit c :
      Py_UNICODE_ISDECIMAL c = true -> matches Digit [c] []
  | matches_Range lo hi c :
      (lo <= c <= hi)%N -> matches (Range lo hi) [c] []
  | matches_Cat r1 r2 t1 t2 g1 g2 :
      matches r1 t1 g1 -> matches r2 t2 g2 ->
      matches (Cat r1 r2) (t1 ++ t2) (g2 ++ g1)
  | matches_Alt_l r1 r2 t g : matches r1 t g -> matches (Alt r1 r2) t g
  | matches_Alt_r r1 r2 t g : matches r2 t g -> matches (Alt r1 r2) t g
  | matches_Repeat_O r : matches (Repeat 0 r) [] []
  | matches_Repeat_S n r t1 t2 g1 g2 :
      matches r t1 g1 -> matches (Repeat n r) t2 g2 ->
      matches (Repeat (S n) r) (t1 ++ t2) (g2 ++ g1)
  | matches_Group name r t g :
      matches r t g -> matches (Group name r) t ((name, t) :: g).

(** ** Fields *)

(** [class Field]: one attribute, [value]. *)
Record Field (V : Type) : Type := mkField { value : V }.
Arguments mkField {V} value.
Arguments value {V} f.

(** [class Name(Field): pass] *)
Definition Name : Type := Field pystr.

(** [class Phone(Field)] *)
Definition Phone : Type := Field pystr.

(** The pattern [r'\d{10}']. *)
Definition phone_pattern : regex := Repeat 10 Digit.

(** [Phone.validate] *)
Definition Phone_validate (value : pystr) : result unit :=
  match re_fullmatch phone_pattern value with
  | Some _ => Ok tt
  | None => Raise (ValueError "Phone number must be 10 digits.")
  end.

(** [Phone.__init__]: [super().__init__(value)], then [self.validate(value)];
    the object only exists for the caller when [validate] returns. *)
Definition Phone_init (v : pystr) : result Phone :=
  let self := mkField v in
  _ ← Phone_validate v;
  mret self.

(** ** Calendar dates ([datetime.date])

    Proleptic Gregorian dates with the ordinal numbering of CPython's
    [datetime] module: 1 January of year 1 is day 1. *)

Record date : Type := mkdate { year : Z; month : Z; day : Z }.

#[global] Instance date_eq_dec : EqDecision date.
Proof. solve_decision. Defined.

Open Scope Z_scope.

Definition MINYEAR : Z := 1.
Definition MAXYEAR : Z := 9999.

Definition is_leap (y : Z) : bool :=
  (y mod 4 =? 0) && (negb (y mod 100 =? 0) || (y mod 400 =? 0)).

Definition DAYS_IN_MONTH : list Z :=
  [-1; 31; 28; 31; 30; 31; 30; 31; 31; 30; 31; 30; 31].

Definition DAYS_BEFORE_MONTH : list Z :=
  [-1; 0; 31; 59; 90; 120; 151; 181; 212; 243; 273; 304; 334].

Definition days_in_month (y m : Z) : Z :=
  if (m =? 2) && is_leap y then 29
  else List.nth (Z.to_nat m) DAYS_IN_MONTH 0.

Definition days_before_year (y : Z) : Z :=
  let y := y - 1 in y * 365 + y / 4 - y / 100 + y / 400.

Definition days_before_month (y m : Z) : Z :=
  List.nth (Z.to_nat m) DAYS_BEFORE_MONTH 0
  + (if (m >? 2) && is_leap y then 1 else 0).

Definition ymd2ord (y m d : Z) : Z :=
  days_before_year y + days_before_month y m + d.

Definition toordinal (d : date) : Z := ymd2ord (year d) (month d) (day d).

(** The field check of [date.__new__]. *)
Definition check_date_fields (y m d : Z) : bool :=
  (MINYEAR <=? y) && (y <=? MAXYEAR) && (1 <=? m) && (m <=? 12)
  && (1 <=? d) && (d <=? days_in_month y m).

(** [date(year, month, day)] *)
Definition date_new (y m d : Z) : result date :=
  if negb ((MINYEAR <=? y) && (y <=? MAXYEAR)) then
    Raise (ValueError "year is out of range")
  else if negb ((1 <=? m) && (m <=? 12)) then
    Raise (ValueError "month must be in 1..12")
  else if negb ((1 <=? d) && (d <=? days_in_month y m)) then
    Raise (ValueError "day is out of range for month")
  else Ok (mkdate y m d).

(** [d.replace(year=y)] *)
Definition date_replace_year (d : date) (y : Z) : result date :=
  date_new y (month d) (day d).

(** [(a - b).days] *)
Definition date_sub_days (a b : date) : Z := toordinal a - toordinal b.

(** The dates [date.__new__] lets through: what a [date] object can hold. *)
Definition valid_date (d : date) : Prop :=
  check_date_fields (year d) (month d) (day d) = true.

(** ** [int()] on the text of a group

    Surrounding white space is stripped and the rest is read as a sequence
    of Unicode decimal digits.  (Signs and [_] separators, which [int] also
    takes, are left out: no group of the patterns below can hold one.) *)

(** The white space [int] strips: the ASCII characters of C's [isspace]
    and the Unicode spaces outside ASCII. *)
Definition isspace (c : N) : bool :=
  ((9 <=? c) && (c <=? 13) || (c =? 32)
   || (c =? 0x85) || (c =? 0xa0) || (c =? 0x1680)
   || (0x2000 <=? c) && (c <=? 0x200a)
   || (c =? 0x2028) || (c =? 0x2029) || (c =? 0x202f) || (c =? 0x205f)
   || (c =? 0x3000))%N.

Fixpoint lstrip (s : pystr) : pystr :=
  match s with
  | c :: s' => if isspace c then lstrip s' else s
  | [] => []
  end.

Definition strip (s : pystr) : pystr := List.rev (lstrip (List.rev (lstrip s))).

Fixpoint digits_value (acc : Z) (s : pystr) : option Z :=
  match s with
  | [] => Some acc
  | c :: s' =>
      match Py_UNICODE_TODECIMAL c with
      | Some v => digits_value (10 * acc + Z.of_N v) s'
      | None => None
      end
  end.

Definition int (s : pystr) : result Z :=
  match strip s with
  | [] => Raise (ValueError "invalid literal for int() with base 10")
  | t =>
      match digits_value 0 t with
      | Some v => Ok v
      | None => Raise (ValueError "invalid literal for int() with base 10")
      end
  end.

(** ** [datetime.strptime(value, "%d.%m.%Y").date()] *)

Definition chr (a : ascii) : N := N_of_ascii a.

(** The directives of [TimeRE]:
    ['d': r"(?P<d>3[0-1]|[1-2]\d|0[1-9]|[1-9]| [1-9])"],
    ['m': r"(?P<m>1[0-2]|0[1-9]|[1-9])"] and ['Y': r"(?P<Y>\d\d\d\d)"]. *)
Definition day_alts : regex :=
  Alt (Cat (Chr (chr "3")) (Range (chr "0") (chr "1")))
 (Alt (Cat (Range (chr "1") (chr "2")) Digit)
 (Alt (Cat (Chr (chr "0")) (Range (chr "1") (chr "9")))
 (Alt (Range (chr "1") (chr "9"))
      (Cat (Chr (chr " ")) (Range (chr "1") (chr "9")))))).

Definition month_alts : regex :=
  Alt (Cat (Chr (chr "1")) (Range (chr "0") (chr "2")))
 (Alt (Cat (Chr (chr "0")) (Range (chr "1") (chr "9")))
      (Range (chr "1") (chr "9"))).

Definition year_digits : regex := Cat Digit (Cat Digit (Cat Digit Digit)).

Definition directive_d : regex := Group "d" day_alts.
Definition directive_m : regex := Group "m" month_alts.
Definition directive_Y : regex := Group "Y" year_digits.

(** The pattern [TimeRE.pattern] builds from ["%d.%m.%Y"]: the directives
    with the escaped dots between them. *)
Definition format_regex : regex :=
  Cat directive_d (Cat (Chr (chr "."))
    (Cat directive_m (Cat (Chr (chr ".")) directive_Y))).

(** [found.groupdict()[name]] *)
Fixpoint group_of (name : string) (g : groups) : pystr :=
  match g with
  | [] => []
  | (n, t) :: g' => if String.eqb n name then t else group_of name g'
  end.

(** [_strptime]: match the pattern at the start of the string, refuse
    unconverted data after the match, convert the groups, and build the
    date.  Every failure is a [ValueError]. *)
Definition strptime (data_string : pystr) : result date :=
  match re_match format_regex data_string with
  | None => Raise (ValueError "time data does not match format")
  | Some (rest, found) =>
      match rest with
      | _ :: _ => Raise (ValueError "unconverted data remains")
      | [] =>
          d ← int (group_of "d" found);
          m ← int (group_of "m" found);
          y ← int (group_of "Y" found);
          date_new y m d
      end
  end.

(** [class Birthday(Field)] *)
Definition Birthday : Type := Field date.

(** [Birthday.__init__]: any [ValueError] of the parse is replaced by the
    class's own. *)
Definition Birthday_init (v : pystr) : result Birthday :=
  match strptime v with
  | Ok d => Ok (mkField d)
  | Raise (ValueError _) =>
      Raise (ValueError "Invalid date format. Use DD.MM.YYYY")
  end.

(** ** [strftime('%d.%m.%Y')]

    [%d] and [%m] are two digits.  [%Y] is handed to the C library: it
    pads the year to four digits on some platforms and prints it without
    leading zeros on others (glibc); [pad_year] says which. *)

Definition digit_chr (n : Z) : N := (48 + Z.to_N n)%N.

Definition two_digits (n : Z) : pystr :=
  [digit_chr (n / 10 mod 10); digit_chr (n mod 10)].

Definition four_digits (n : Z) : pystr :=
  [digit_chr (n / 1000 mod 10); digit_chr (n / 100 mod 10);
   digit_chr (n / 10 mod 10); digit_chr (n mod 10)].

Fixpoint drop_zeros (s : pystr) : pystr :=
  match s with
  | c :: ((_ :: _) as s') => if (c =? 48)%N then drop_zeros s' else s
  | _ => s
  end.

Definition year_text (pad_year : bool) (y : Z) : pystr :=
  if pad_year then four_digits y else drop_zeros (four_digits y).

Definition strftime (pad_year : bool) (d : date) : pystr :=
  two_digits (day d) ++ [chr "."] ++ two_digits (month d) ++ [chr "."]
  ++ year_text pad_year (year d).

(** The text [DD.MM.YYYY] of a date, zero-padded. *)
Definition dmY_text (d : date) : pystr :=
  two_digits (day d) ++ [chr "."] ++ two_digits (month d) ++ [chr "."]
  ++ four_digits (year d).

(** What [strptime] takes, read off its pattern: a day text, a dot, a
    month text, a dot and a year text whose numbers make a date. *)
Definition strptime_accepts (s : pystr) (dt : date) : Prop :=
  exists D M Y,
    s = D ++ [chr "."] ++ M ++ [chr "."] ++ Y
    /\ matches day_alts D [] /\ matches month_alts M []
    /\ matches year_digits Y []
    /\ (d ← int D; m ← int M; y ← int Y; date_new y m d) = Ok dt.

(** ** Insertion-ordered dictionaries ([dict])

    A Python [dict] iterates in insertion order: assigning to a key that is
    present keeps its place, assigning to a new key appends it. *)

Section dict.
Context {K V : Type} `{EqDecision K}.

Definition dict : Type := list (K * V).

Definition dict_keys (d : dict) : list K := fst <$> d.

(** [d.values()] *)
Definition dict_values (d : dict) : list V := snd <$> d.

(** [d.get(k)] *)
Fixpoint dict_get (k : K) (d : dict) : option V :=
  match d with
  | [] => None
  | (k', v) :: d' => if decide (k' = k) then Some v else dict_get k d'
  end.

(** [k in d] *)
Definition dict_contains (k : K) (d : dict) : bool :=
  match dict_get k d with Some _ => true | None => false end.

(** [d[k] = v] *)
Fixpoint dict_setitem (k : K) (v : V) (d : dict) : dict :=
  match d with
  | [] => [(k, v)]
  | (k', v') :: d' =>
      if decide (k' = k) then (k', v) :: d'
      else (k', v') :: dict_setitem k v d'
  end.

(** [del d[k]] (for a key that is present) *)
Fixpoint dict_delitem (k : K) (d : dict) : dict :=
  match d with
  | [] => []
  | (k', v') :: d' =>
      if decide (k' = k) then d' else (k', v') :: dict_delitem k d'
  end.
End dict.
Arguments dict : clear implicits.

(** ** Objects and the program state *)

(** The attributes of a [Record] instance. *)
Record ContactRecord : Type := mkRecord {
  name : Name;
  phones : list Phone;
  birthday : option Birthday
}.

#[global] Instance ContactRecord_inhabited : Inhabited ContactRecord :=
  populate (mkRecord (mkField []) [] None).

(** The identity of a [Record] object. *)
Definition loc : Type := nat.

(** The objects allocated so far, and the [data] of the address book. *)
Record state : Type := mkState {
  heap : gmap loc ContactRecord;
  data : dict pystr loc
}.

Definition empty_state : state := mkState ∅ [].

(** Computations that read and write the state and may raise; the state
    at the point of the [raise] is what the caller is left with. *)
Definition M (A : Type) : Type := state -> result A * state.

#[global] Instance M_ret : MRet M := fun A a σ => (Ok a, σ).
#[global] Instance M_bind : MBind M := fun A B f m σ =>
  match m σ with
  | (Ok a, σ') => f a σ'
  | (Raise e, σ') => (Raise e, σ')
  end.

Definition lift {A} (r : result A) : M A := fun σ => (r, σ).
Definition raise {A} (e : exn) : M A := lift (Raise e).

(** Reading the attributes of the object [l].  A reference a program
    holds is one [Record(name)] returned, so the object is allocated; the
    default record only stands in for a reference that is not. *)
Definition load (l : loc) : M ContactRecord :=
  fun σ => (Ok (heap σ !!! l), σ).

(** Assigning to an attribute of the object [l]. *)
Definition store (l : loc) (r : ContactRecord) : M unit :=
  fun σ => (Ok tt, mkState (<[l := r]> (heap σ)) (data σ)).

(** Creating an object: its identity is new. *)
Definition alloc (r : ContactRecord) : M loc :=
  fun σ => let l := fresh (dom (heap σ)) in
           (Ok l, mkState (<[l := r]> (heap σ)) (data σ)).

Definition get_data : M (dict pystr loc) := fun σ => (Ok (data σ), σ).
Definition set_data (d : dict pystr loc) : M unit :=
  fun σ => (Ok tt, mkState (heap σ) d).

Definition set_phones (r : ContactRecord) (ps : list Phone) : ContactRecord :=
  mkRecord (name r) ps (birthday r).
Definition set_birthday (r : ContactRecord) (b : option Birthday)
    : ContactRecord :=
  mkRecord (name r) (phones r) b.

(** ** [class Record] *)

(** [Record.__init__] *)
Definition Record_init (name : pystr) : M loc :=
  alloc (mkRecord (mkField name) [] None).

(** [self.phones.append(Phone(phone))] *)
Definition Record_add_phone (self : loc) (phone : pystr) : M unit :=
  p ← lift (Phone_init phone);
  r ← load self;
  store self (set_phones r (phones r ++ [p])).

(** [self.phones = [p for p in self.phones if p.value != phone]] *)
Definition Record_remove_phone (self : loc) (phone : pystr) : M unit :=
  r ← load self;
  store self (set_phones r (filter (fun p => value p ≠ phone) (phones r))).

(** The loop of [edit_phone] at the [i]-th phone, [ps] being the phones
    from there on: the first phone whose value is [old_phone] gets
    [phone.value = new_phone], and only then [phone.validate(new_phone)]
    is called. *)
Fixpoint edit_phone_loop (self : loc) (old_phone new_phone : pystr)
    (i : nat) (ps : list Phone) : M unit :=
  match ps with
  | [] => raise (ValueError "Phone number not found.")
  | phone :: ps' =>
      if decide (value phone = old_phone) then
        r ← load self;
        _ ← store self (set_phones r (<[i := mkField new_phone]> (phones r)));
        lift (Phone_validate new_phone)
      else edit_phone_loop self old_phone new_phone (S i) ps'
  end.

(** [Record.edit_phone] *)
Definition Record_edit_phone (self : loc) (old_phone new_phone : pystr)
    : M unit :=
  r ← load self;
  edit_phone_loop self old_phone new_phone 0%nat (phones r).

(** [Record.find_phone]: the phone, or the text that says there is none. *)
Definition Record_find_phone (self : loc) (phone : pystr) : M pystr :=
  r ← load self;
  mret (if bool_decide (phone ∈ value <$> phones r) then phone
        else str "Phone number not found.").

(** [self.birthday = Birthday(birthday)] *)
Definition Record_add_birthday (self : loc) (birthday : pystr) : M unit :=
  b ← lift (Birthday_init birthday);
  r ← load self;
  store self (set_birthday r (Some b)).

(** ** [class AddressBook(UserDict)] *)

(** [self.data[record.name.value] = record] *)
Definition AddressBook_add_record (record : loc) : M unit :=
  r ← load record;
  d ← get_data;
  set_data (dict_setitem (value (name r)) record d).

(** [self.data.get(name, "Contact not found.")] *)
Definition AddressBook_find (name : pystr) : M (loc + pystr) :=
  d ← get_data;
  mret (match dict_get name d with
        | Some l => inl l
        | None => inr (str "Contact not found.")
        end).

(** [AddressBook.delete] *)
Definition AddressBook_delete (name : pystr) : M unit :=
  d ← get_data;
  if dict_contains name d then set_data (dict_delitem name d)
  else raise (ValueError "Contact not found.").

(** The body of the loop of [get_upcoming_birthdays] for one record: the
    number of days until the birthday. *)
Definition days_until_birthday (today : date) (b : Birthday) : result Z :=
  birthday_this_year ← date_replace_year (value b) (year today);
  let days_until_birthday := date_sub_days birthday_this_year today in
  if days_until_birthday <? 0 then
    birthday_next_year ← date_replace_year birthday_this_year (year today + 1);
    mret (date_sub_days birthday_next_year today)
  else mret days_until_birthday.

(** [for record in self.data.values(): ...], [upcoming_birthdays] being
    the list built so far. *)
Fixpoint upcoming_loop (today : date) (records : list loc)
    (upcoming_birthdays : list loc) : M (list loc) :=
  match records with
  | [] => mret upcoming_birthdays
  | record :: records' =>
      r ← load record;
      match birthday r with
      | Some b =>
          days ← lift (days_until_birthday today b);
          if (0 <=? days) && (days <=? 7) then
            upcoming_loop today records' (upcoming_birthdays ++ [record])
          else upcoming_loop today records' upcoming_birthdays
      | None => upcoming_loop today records' upcoming_birthdays
      end
  end.

(** [AddressBook.get_upcoming_birthdays]; [today] is what
    [datetime.now().date()] returns.  The result lists the records
    themselves (their identities), not copies. *)
Definition AddressBook_get_upcoming_birthdays (today : date) : M (list loc) :=
  d ← get_data;
  upcoming_loop today (dict_values d) [].

(** ** Sequences of calls

    The calls a client of the two classes can make.  An object reference
    passed to a call is one that [Record(name)] returned earlier. *)

Inductive op : Type :=
  | NewRecord (name : pystr)                           (* Record(name) *)
  | AddPhone (self : loc) (phone : pystr)
  | RemovePhone (self : loc) (phone : pystr)
  | EditPhone (self : loc) (old_phone new_phone : pystr)
  | FindPhone (self : loc) (phone : pystr)
  | AddBirthday (self : loc) (birthday : pystr)
  | AddRecord (record : loc)
  | Find (name : pystr)
  | Delete (name : pystr)
  | GetUpcomingBirthdays (today : date).

(** Running a call for its effect and its outcome (returned or raised). *)
Definition run (o : op) : M unit :=
  match o with
  | NewRecord name => _ ← Record_init name; mret tt
  | AddPhone self phone => Record_add_phone self phone
  | RemovePhone self phone => Record_remove_phone self phone
  | EditPhone self old_phone new_phone =>
      Record_edit_phone self old_phone new_phone
  | FindPhone self phone => _ ← Record_find_phone self phone; mret tt
  | AddBirthday self birthday => Record_add_birthday self birthday
  | AddRecord record => AddressBook_add_record record
  | Find name => _ ← AddressBook_find name; mret tt
  | Delete name => AddressBook_delete name
  | GetUpcomingBirthdays today =>
      _ ← AddressBook_get_upcoming_birthdays today; mret tt
  end.

(** The object a call is handed, if any. *)
Definition op_ref (o : op) : option loc :=
  match o with
  | AddPhone self _ | RemovePhone self _ | EditPhone self _ _
  | FindPhone self _ | AddBirthday self _ | AddRecord self => Some self
  | NewRecord _ | Find _ | Delete _ | GetUpcomingBirthdays _ => None
  end.

Definition is_edit_phone (o : op) : bool :=
  match o with EditPhone _ _ _ => true | _ => false end.

(** The states a program reaches from the empty address book, whether
    its calls return or raise. *)
Inductive reachable : state -> Prop :=
  | reachable_empty : reachable empty_state
  | reachable_run σ o :
      reachable σ ->
      (forall l, op_ref o = Some l -> l ∈ dom (heap σ)) ->
      reachable (snd (run o σ)).

(** Running a list of calls, stopping at the first that raises. *)
Fixpoint run_all (os : list op) : M unit :=
  match os with
  | [] => mret tt
  | o :: os' => _ ← run o; run_all os'
  end.

(** ** The upcoming-birthday rule as the specification words it *)

(** "candidate = birthday with year replaced by [y]": the calendar date
    with the birthday's month and day in year [y], when there is one. *)
Definition spec_candidate (birthday : date) (y : Z) : option date :=
  if check_date_fields y (month birthday) (day birthday)
  then Some (mkdate y (month birthday) (day birthday))
  else None.

(** "delta = (candidate - today).days; if delta < 0, recompute candidate
    with year = today.year + 1 and recompute delta". *)
Definition spec_delta (today birthday : date) : option Z :=
  candidate ← spec_candidate birthday (year today);
  let delta := toordinal candidate - toordinal today in
  if delta <? 0 then
    candidate' ← spec_candidate birthday (year today + 1);
    Some (toordinal candidate' - toordinal today)
  else Some delta.


(** ** Patterns without groups *)

Fixpoint no_group (r : regex) : bool :=
  match r with
  | Chr _ | Digit | Range _ _ => true
  | Cat r1 r2 | Alt r1 r2 => no_group r1 && no_group r2
  | Repeat _ r1 => no_group r1
  | Group _ _ => false
  end.

(** ** What the calls keep *)

(** Every entry of the address book refers to an allocated object whose
    name is the entry's key. *)
Definition keyed_by_name (σ : state) : Prop :=
  forall k l, (k, l) ∈ data σ ->
    exists r, heap σ !! l = Some r /\ value (name r) = k.

(** No call removes an object or changes its name. *)
Definition names_kept (σ σ' : state) : Prop :=
  forall l r, heap σ !! l = Some r ->
    exists r', heap σ' !! l = Some r' /\ name r' = name r.

(** ** Example address books and strings *)

(** Ann, born 02.01.1990. *)
Definition st_rollover : state :=
  snd (run_all [NewRecord (str "Ann"); AddBirthday 0%nat (str "02.01.1990");
                AddRecord 0%nat] empty_state).

(** Ann (02.01.) was added before Bob (29.12.). *)
Definition st_two : state :=
  snd (run_all [NewRecord (str "Ann"); AddBirthday 0%nat (str "02.01.1990");
                AddRecord 0%nat;
                NewRecord (str "Bob"); AddBirthday 1%nat (str "29.12.2000");
                AddRecord 1%nat] empty_state).

(** Eve was born on a 29 February. *)
Definition st_leap_day : state :=
  snd (run_all [NewRecord (str "Eve"); AddBirthday 0%nat (str "29.02.2000");
                AddRecord 0%nat] empty_state).

(** An address book with one contact that has one phone. *)
Definition st_phone : state :=
  snd (run_all [NewRecord (str "Ann"); AddPhone 0%nat (str "1111111111");
                AddRecord 0%nat] empty_state).

(** The ten ARABIC-INDIC digits U+0660 to U+0669: none is an ASCII digit. *)
Definition arabic_indic_digits : pystr :=
  [0x660; 0x661; 0x662; 0x663; 0x664; 0x665; 0x666; 0x667; 0x668; 0x669]%N.

(** ** [Record.__str__] *)

(** [sep.join(parts)] *)
Fixpoint join (sep : pystr) (parts : list pystr) : pystr :=
  match parts with
  | [] => []
  | p :: parts' =>
      match parts' with
      | [] => p
      | _ :: _ => p ++ sep ++ join sep parts'
      end
  end.

(** The truth value of a [str]: false for the empty string only. *)
Definition truthy (s : pystr) : bool :=
  match s with [] => false | _ :: _ => true end.

(** The line feed of ["\n"]. *)
Definition LF : N := 10%N.

(** [Record.__str__]; [pad_year] is the platform's way with [%Y]. *)
Definition Record_str (pad_year : bool) (r : ContactRecord) : pystr :=
  let birthday_str :=
    match birthday r with
    | Some b => str ", birthday: " ++ strftime pad_year (value b)
    | None => []
    end in
  str "Contact name: " ++ value (name r) ++ str ", phones: "
  ++ join (str "; ") (value <$> phones r) ++ birthday_str.

(** ** The command handlers *)

(** [input_error]: the wrapper returns what the handler returns and turns
    a [ValueError] into its message.  (The handlers raise nothing else, so
    the [except Exception] clause has no case here.) *)
Definition input_error (func : M pystr) : M pystr :=
  fun σ =>
    match func σ with
    | (Ok s, σ') => (Ok s, σ')
    | (Raise (ValueError msg), σ') => (Ok (str msg), σ')
    end.

(** [if phone: record.add_phone(phone)] *)
Definition add_phone_if_given (record : loc) (phone : pystr) : M unit :=
  if truthy phone then Record_add_phone record phone else mret tt.

(** The body of [add_contact]. *)
Definition add_contact_body (args : list pystr) : M pystr :=
  match args with
  | name :: phone :: _ =>
      found ← AddressBook_find name;
      match found with
      | inl record =>
          _ ← add_phone_if_given record phone;
          mret (str "Contact updated.")
      | inr _ =>
          record ← Record_init name;
          _ ← add_phone_if_given record phone;
          _ ← AddressBook_add_record record;
          mret (str "Contact added.")
      end
  | _ => raise (ValueError "Usage: add [name] [phone]")
  end.

Definition add_contact (args : list pystr) : M pystr :=
  input_error (add_contact_body args).

(** The body of [change_phone]. *)
Definition change_phone_body (args : list pystr) : M pystr :=
  match args with
  | [name; old_phone; new_phone] =>
      found ← AddressBook_find name;
      match found with
      | inl record =>
          _ ← Record_edit_phone record old_phone new_phone;
          mret (str "Phone number updated.")
      | inr _ => mret (str "Contact not found.")
      end
  | _ => raise (ValueError "Usage: change [name] [old_phone] [new_phone]")
  end.

Definition change_phone (args : list pystr) : M pystr :=
  input_error (change_phone_body args).

(** The body of [show_phone]. *)
Definition show_phone_body (args : list pystr) : M pystr :=
  match args with
  | [name] =>
      found ← AddressBook_find name;
      match found with
      | inl record =>
          r ← load record;
          mret (str "Phone numbers for " ++ name ++ str ": "
                ++ join (str ", ") (value <$> phones r))
      | inr _ => mret (str "Contact not found.")
      end
  | _ => raise (ValueError "Usage: phone [name]")
  end.

Definition show_phone (args : list pystr) : M pystr :=
  input_error (show_phone_body args).

(** The body of the handler [add_birthday]. *)
Definition add_birthday_body (args : list pystr) : M pystr :=
  match args with
  | [name; date] =>
      found ← AddressBook_find name;
      match found with
      | inl record =>
          _ ← Record_add_birthday record date;
          mret (str "Birthday added.")
      | inr _ => mret (str "Contact not found.")
      end
  | _ => raise (ValueError "Usage: add-birthday [name] [DD.MM.YYYY]")
  end.

Definition add_birthday (args : list pystr) : M pystr :=
  input_error (add_birthday_body args).

(** The body of [show_birthday]. *)
Definition show_birthday_body (pad_year : bool) (args : list pystr)
    : M pystr :=
  match args with
  | [name] =>
      found ← AddressBook_find name;
      match found with
      | inl record =>
          r ← load record;
          match birthday r with
          | Some b =>
              mret (name ++ str "'s birthday is on "
                    ++ strftime pad_year (value b))
          | None => mret (str "Birthday not set for this contact.")
          end
      | inr _ => mret (str "Contact not found.")
      end
  | _ => raise (ValueError "Usage: show-birthday [name]")
  end.

Definition show_birthday (pad_year : bool) (args : list pystr) : M pystr :=
  input_error (show_birthday_body pad_year args).

(** [str(record)] for each of the records listed. *)
Definition str_records (pad_year : bool) (records : list loc)
    : M (list pystr) :=
  fun σ => (Ok ((fun l => Record_str pad_year (heap σ !!! l)) <$> records), σ).

(** The body of [birthdays]; [today] is the date the query reads from the
    clock. *)
Definition birthdays_body (pad_year : bool) (today : date)
    (args : list pystr) : M pystr :=
  upcoming_birthdays ← AddressBook_get_upcoming_birthdays today;
  match upcoming_birthdays with
  | [] => mret (str "No upcoming birthdays in the next week.")
  | _ :: _ =>
      lines ← str_records pad_year upcoming_birthdays;
      mret (str "Upcoming birthdays in the next week:" ++ [LF]
            ++ join [LF] lines)
  end.

Definition birthdays (pad_year : bool) (today : date) (args : list pystr)
    : M pystr :=
  input_error (birthdays_body pad_year today args).

(** ** [parse_input] *)

(** [str.isspace] for one character: what [str.split()] splits at. *)
Definition Py_UNICODE_ISSPACE (c : N) : bool :=
  ((9 <=? c) && (c <=? 13) || (28 <=? c) && (c <=? 32)
   || (c =? 0x85) || (c =? 0xa0) || (c =? 0x1680)
   || (0x2000 <=? c) && (c <=? 0x200a)
   || (c =? 0x2028) || (c =? 0x2029) || (c =? 0x202f) || (c =? 0x205f)
   || (c =? 0x3000))%N.

(** [s.split()]: the maximal runs of characters that are not white space;
    [word] is the run being read. *)
Fixpoint split_from (word : pystr) (s : pystr) : list pystr :=
  match s with
  | [] => if truthy word then [word] else []
  | c :: s' =>
      if Py_UNICODE_ISSPACE c then
        (if truthy word then word :: split_from [] s' else split_from [] s')
      else split_from (word ++ [c]) s'
  end.

(** [parse_input]: [user_input.split()] *)
Definition parse_input (user_input : pystr) : list pystr :=
  split_from [] user_input.

(** ** [main]

    The loop of [main] run on the lines [input] returns, each with the
    date the clock shows when it is handled.  The address book [load_data]
    returned is the initial state; the file itself is outside the model,
    and so the outcome only names the address book handed to
    [save_data]. *)

(** An exception nothing catches: it ends the program. *)
Inductive uncaught : Type :=
  | UncaughtExn (e : exn)
      (* [command, *args = []]: not enough values to unpack; or whatever
         a handler lets through *)
  | UncaughtTypeError (msg : string)
  | UncaughtEOFError.            (* [input] at the end of the input *)

(** What one round of the loop does after reading the line. *)
Inductive round : Type :=
  | Printed (text : pystr)       (* [print(text)], then the next round *)
  | Closing                      (* [save_data(book)], "Good bye!", [break] *)
  | Died (e : uncaught).

Definition is_command (command : pystr) (name : string) : bool :=
  bool_decide (command = str name).

(** A handler called from [main]: its result is printed. *)
Definition printed (r : result pystr * state) : round * state :=
  match r with
  | (Ok text, σ) => (Printed text, σ)
  | (Raise e, σ) => (Died (UncaughtExn e), σ)
  end.

(** The message of the [TypeError] for a call of the wrapper with one
    argument. *)
Definition MISSING_BOOK : string :=
  "input_error.<locals>.wrapper() missing 1 required positional argument: 'book'".

(** The body of the loop from [parse_input] on.  [show_all_contacts] is
    the wrapper [input_error] returned, which takes [(args, book)]:
    the call [show_all_contacts(book)] is one argument short, so it
    raises [TypeError] before any code of the handler runs. *)
Definition dispatch (pad_year : bool) (today : date) (user_input : pystr)
    : state -> round * state :=
  fun σ =>
    match parse_input user_input with
    | [] =>
        (Died (UncaughtExn
                 (ValueError "not enough values to unpack (expected at least 1, got 0)")),
         σ)
    | command :: args =>
        if is_command command "close" || is_command command "exit" then
          (Closing, σ)
        else if is_command command "hello" then
          (Printed (str "How can I help you?"), σ)
        else if is_command command "add" then printed (add_contact args σ)
        else if is_command command "change" then
          printed (change_phone args σ)
        else if is_command command "phone" then printed (show_phone args σ)
        else if is_command command "all" then
          (Died (UncaughtTypeError MISSING_BOOK), σ)
        else if is_command command "add-birthday" then
          printed (add_birthday args σ)
        else if is_command command "show-birthday" then
          printed (show_birthday pad_year args σ)
        else if is_command command "birthdays" then
          printed (birthdays pad_year today args σ)
        else (Printed (str "Invalid command."), σ)
    end.

(** How the program ends. *)
Inductive outcome : Type :=
  | Saved (book : state)         (* [save_data(book)] was called *)
  | Crashed (e : uncaught).      (* nothing was saved *)

(** What [print(text)] writes. *)
Definition print_line (text : pystr) : pystr := text ++ [LF].

Definition PROMPT : pystr := str "Enter a command: ".

(** [while True: ...]: what is written to the standard output, and the
    outcome. *)
Fixpoint main_loop (pad_year : bool) (inputs : list (pystr * date))
    (σ : state) : list pystr * outcome :=
  match inputs with
  | [] => ([PROMPT], Crashed UncaughtEOFError)
  | (user_input, today) :: inputs' =>
      match dispatch pad_year today user_input σ with
      | (Printed text, σ') =>
          let (out, o) := main_loop pad_year inputs' σ' in
          (PROMPT :: print_line text :: out, o)
      | (Closing, σ') =>
          ([PROMPT; print_line (str "Good bye!")], Saved σ')
      | (Died e, _) => ([PROMPT], Crashed e)
      end
  end.

(** [main], [book] being what [load_data()] returned. *)
Definition main (pad_year : bool) (book : state)
    (inputs : list (pystr * date)) : list pystr * outcome :=
  let (out, o) := main_loop pad_year inputs book in
  (print_line (str "Welcome to the assistant bot!") :: out, o).

(** ** Checks on states and call sequences *)

(** The references the calls of [os] are handed are allocated when the
    call is made. *)
Fixpoint refs_allocated (os : list op) (σ : state) : bool :=
  match os with
  | [] => true
  | o :: os' =>
      match op_ref o with
      | Some l => bool_decide (l ∈ dom (heap σ))
      | None => true
      end
      && match run o σ with
         | (Ok _, σ') => refs_allocated os' σ'
         | (Raise _, _) => true
         end
  end.

(** Every phone of every record passes [Phone.validate]. *)
Definition phones_valid (σ : state) : Prop :=
  forall l r, heap σ !! l = Some r ->
    Forall (fun p => Phone_validate (value p) = Ok tt) (phones r).

(** Every birthday of every record is a date of the calendar. *)
Definition birthdays_valid (σ : state) : Prop :=
  forall l r b, heap σ !! l = Some r -> birthday r = Some b ->
    valid_date (value b).

(** The extra day of a leap year. *)
Definition leap_day (y : Z) : Z := if is_leap y then 1 else 0.

(** A word: not empty and free of white space. *)
Definition is_word (w : pystr) : Prop :=
  w ≠ [] /\ Forall (fun c => Py_UNICODE_ISSPACE c = false) w.

(** The first word of the line is [close] or [exit]. *)
Definition closes (user_input : pystr) : Prop :=
  exists command args,
    parse_input user_input = command :: args
    /\ (command = str "close" \/ command = str "exit").

(** The two exceptions that end the loop from within a round. *)
Definition loop_crash (e : uncaught) : Prop :=
  e = UncaughtExn
        (ValueError "not enough values to unpack (expected at least 1, got 0)")
  \/ e = UncaughtTypeError MISSING_BOOK.

(** * Properties *)

(** ** The monad *)

Ltac munfold :=
  unfold mbind, mret, M_bind, M_ret, result_bind, result_ret,
    lift, raise, load, store, alloc, get_data, set_data in *.

(** ** The matcher *)

Lemma sre_match_Repeat_S {X} n r s g (k : cont X) :
  sre_match (Repeat (S n) r) s g k
  = sre_match r s g (fun t1 s1 g1 =>
      sre_match (Repeat n r) s1 g1 (fun t2 => k (t1 ++ t2))).
Proof. reflexivity. Qed.

Lemma one_char_Some {X} p s g (k : cont X) x :
  one_char p s g k = Some x ->
  exists c s', s = c :: s' /\ p c = true /\ k [c] s' g = Some x.
Proof.
  destruct s as [|c s']; simpl; [done|].
  destruct (p c) eqn:Hp; [|done]. intros Hk. by exists c, s'.
Qed.

(** Whatever the matcher finds is a match in the declarative sense: the
    string splits into a text the pattern matches and the rest, on which
    the continuation succeeded. *)
Lemma sre_match_sound {X} r : forall s g (k : cont X) x,
  sre_match r s g k = Some x ->
  exists t s' gr,
    s = t ++ s' /\ matches r t gr /\ k t s' (gr ++ g) = Some x.
Proof.
  induction r as [c| |lo hi|r1 IH1 r2 IH2|r1 IH1 r2 IH2|n r1 IH1|nm r1 IH1];
    intros s g k x; simpl.
  - intros (c' & s' & -> & Hc%N.eqb_eq & Hk)%one_char_Some. subst c'.
    exists [c], s', []. repeat split; [constructor|done].
  - intros (c' & s' & -> & Hc & Hk)%one_char_Some.
    exists [c'], s', []. repeat split; [by constructor|done].
  - intros (c' & s' & -> & Hc & Hk)%one_char_Some.
    exists [c'], s', []. repeat split; [|done].
    constructor. apply andb_true_iff in Hc as [?%N.leb_le ?%N.leb_le]. lia.
  - intros (t1 & s1 & g1 & -> & Hm1 & H1)%IH1.
    apply IH2 in H1 as (t2 & s2 & g2 & -> & Hm2 & H2).
    exists (t1 ++ t2), s2, (g2 ++ g1).
    rewrite <- !app_assoc. repeat split; [by constructor|done].
  - destruct (sre_match r1 s g k) as [x'|] eqn:H1.
    + intros [= ->]. apply IH1 in H1 as (t & s' & gr & -> & Hm & Hk).
      exists t, s', gr. repeat split; [by apply matches_Alt_l|done].
    + intros (t & s' & gr & -> & Hm & Hk)%IH2.
      exists t, s', gr. repeat split; [by apply matches_Alt_r|done].
  - change (sre_match (Repeat n r1) s g k = Some x ->
            exists t s' gr, s = t ++ s' /\ matches (Repeat n r1) t gr
                            /\ k t s' (gr ++ g) = Some x).
    revert s g k. induction n as [|n IHn]; intros s g k.
    + simpl. intros Hk. exists [], s, []. repeat split; [constructor|done].
    + rewrite sre_match_Repeat_S.
      intros (t1 & s1 & g1 & -> & Hm1 & H1)%IH1.
      apply IHn in H1 as (t2 & s2 & g2 & -> & Hm2 & H2).
      exists (t1 ++ t2), s2, (g2 ++ g1).
      rewrite <- !app_assoc. repeat split; [by constructor|done].
  - intros (t & s' & gr & -> & Hm & Hk)%IH1.
    exists t, s', ((nm, t) :: gr). repeat split; [by constructor|done].
Qed.

(** *** [\d{n}] *)

Lemma matches_Repeat_Digit n t g :
  matches (Repeat n Digit) t g ->
  length t = n /\ Forall (fun c => Py_UNICODE_ISDECIMAL c = true) t.
Proof.
  revert t g. induction n as [|n IH]; intros t g Hm.
  - by inversion Hm.
  - inversion Hm as [| | | | | | |? ? t1 t2 g1 g2 H1 H2|]; subst.
    inversion H1; subst. apply IH in H2 as [<- HF].
    split; [done|]. by constructor.
Qed.

Lemma sre_match_Repeat_Digit {X} n : forall s g (k : cont X),
  length s = n ->
  Forall (fun c => Py_UNICODE_ISDECIMAL c = true) s ->
  sre_match (Repeat n Digit) s g k = k s [] g.
Proof.
  induction n as [|n IH]; intros s g k Hlen HF.
  - by destruct s.
  - destruct s as [|c s]; [done|]. inversion HF as [|? ? Hc HF']; subst.
    rewrite sre_match_Repeat_S. simpl. rewrite Hc.
    apply (IH s g (fun t2 => k ([c] ++ t2))); [|done].
    simpl in Hlen. lia.
Qed.

Lemma re_fullmatch_phone_pattern s :
  re_fullmatch phone_pattern s =
    if decide (length s = 10%nat
               /\ Forall (fun c => Py_UNICODE_ISDECIMAL c = true) s)
    then Some [] else None.
Proof.
  unfold re_fullmatch, phone_pattern.
  destruct (decide _) as [[Hlen HF]|Hno].
  - by rewrite sre_match_Repeat_Digit.
  - destruct (sre_match _ s [] _) as [x|] eqn:Hm; [|done].
    apply sre_match_sound in Hm as (t & s' & gr & -> & Hm & Hk).
    destruct s'; [|done]. rewrite app_nil_r in Hno.
    by apply matches_Repeat_Digit in Hm.
Qed.

Lemma ascii_digit_decimal c :
  ascii_digit c = true -> Py_UNICODE_ISDECIMAL c = true.
Proof.
  unfold ascii_digit, Py_UNICODE_ISDECIMAL, Py_UNICODE_TODECIMAL.
  intros [H1%N.leb_le H2%N.leb_le]%andb_true_iff.
  unfold decimal_runs, todecimal_in.
  destruct (N.leb_spec 48 c); [|lia].
  destruct (N.ltb_spec c (48 + 10)); [done|lia].
Qed.

(** C2 (as the code has it): [Phone(s)] returns a phone whose value is [s]
    exactly when [s] is ten characters that are Unicode decimal digits
    ([\d] on a [str]), in particular for every ten ASCII digits; it raises
    the class's [ValueError] for every other string. *)
Theorem phone_init_spec s :
  (length s = 10%nat /\ Forall (fun c => Py_UNICODE_ISDECIMAL c = true) s ->
   Phone_init s = Ok (mkField s))
  /\ (¬ (length s = 10%nat
         /\ Forall (fun c => Py_UNICODE_ISDECIMAL c = true) s) ->
      Phone_init s = Raise (ValueError "Phone number must be 10 digits."))
  /\ (length s = 10%nat /\ Forall (fun c => ascii_digit c = true) s ->
      Phone_init s = Ok (mkField s)).
Proof.
  assert (Hgood : length s = 10%nat
            /\ Forall (fun c => Py_UNICODE_ISDECIMAL c = true) s ->
            Phone_init s = Ok (mkField s)).
  { intros H. unfold Phone_init, Phone_validate.
    rewrite re_fullmatch_phone_pattern. by rewrite decide_True. }
  split; [exact Hgood|]. split.
  - intros H. unfold Phone_init, Phone_validate.
    rewrite re_fullmatch_phone_pattern. by rewrite decide_False.
  - intros [Hlen HF]. apply Hgood. split; [done|].
    eapply Forall_impl; [exact HF|]. apply ascii_digit_decimal.
Qed.

(** Ten ASCII digits are accepted, nine are refused. *)
Lemma phone_init_spec_examples :
  Phone_init (str "0501234567") = Ok (mkField (str "0501234567"))
  /\ Phone_init (str "050123456")
     = Raise (ValueError "Phone number must be 10 digits.").
Proof.
  split.
  - apply (phone_init_spec (str "0501234567")). split; [reflexivity|].
    vm_compute. repeat constructor.
  - apply (phone_init_spec (str "050123456")). intros [Hlen _].
    vm_compute in Hlen. discriminate Hlen.
Defined.

(** A string of ten characters none of which is an ASCII digit is
    accepted as a phone number. *)
Lemma phone_init_accepts_non_ascii_digits :
  Forall (fun c => ascii_digit c = false) arabic_indic_digits
  /\ Phone_init arabic_indic_digits = Ok (mkField arabic_indic_digits).
Proof. split; [repeat constructor|vm_compute; reflexivity]. Qed.

(** ** Dates *)

Lemma date_new_check y m d :
  date_new y m d =
    if check_date_fields y m d then Ok (mkdate y m d)
    else Raise (ValueError
           (if negb ((MINYEAR <=? y) && (y <=? MAXYEAR))
            then "year is out of range"
            else if negb ((1 <=? m) && (m <=? 12))
                 then "month must be in 1..12"
                 else "day is out of range for month")).
Proof.
  unfold date_new, check_date_fields.
  destruct (MINYEAR <=? y), (y <=? MAXYEAR), (1 <=? m), (m <=? 12),
    (1 <=? d), (d <=? days_in_month y m); reflexivity.
Qed.

(** ** [strptime] *)

Lemma matches_no_group r t g : matches r t g -> no_group r = true -> g = [].
Proof.
  induction 1 as [| | |r1 r2 t1 t2 g1 g2 _ IH1 _ IH2| | |
                  |n r t1 t2 g1 g2 _ IH1 _ IH2|]; simpl; try done.
  - intros [H1 H2]%andb_true_iff. by rewrite IH1, IH2.
  - intros [H1 H2]%andb_true_iff. auto.
  - intros [H1 H2]%andb_true_iff. auto.
  - intros Hr. by rewrite IH1, IH2.
Qed.

Ltac inv_matches :=
  repeat match goal with
  | H : matches (Alt _ _) _ _ |- _ => inversion H; clear H; subst
  | H : matches (Cat _ _) _ _ |- _ => inversion H; clear H; subst
  | H : matches (Chr _) _ _ |- _ => inversion H; clear H; subst
  | H : matches Digit _ _ |- _ => inversion H; clear H; subst
  | H : matches (Range _ _) _ _ |- _ => inversion H; clear H; subst
  | H : matches (Group _ _) _ _ |- _ => inversion H; clear H; subst
  end.

Lemma matches_format_regex t gr :
  matches format_regex t gr ->
  exists D M Y,
    t = D ++ [chr "."] ++ M ++ [chr "."] ++ Y
    /\ gr = [("Y"%string, Y); ("m"%string, M); ("d"%string, D)]
    /\ matches day_alts D [] /\ matches month_alts M []
    /\ matches year_digits Y [].
Proof.
  unfold format_regex, directive_d, directive_m, directive_Y.
  intros H. inv_matches.
  repeat match goal with
  | H : matches ?r _ ?g |- _ =>
      is_var g; pose proof (matches_no_group _ _ _ H eq_refl); subst g
  end.
  eexists _, _, _. split; [reflexivity|]. split; [reflexivity|]. done.
Qed.

Lemma strptime_sound s dt : strptime s = Ok dt -> strptime_accepts s dt.
Proof.
  unfold strptime, re_match.
  destruct (sre_match format_regex s [] _) as [[rest found]|] eqn:Hm; [|done].
  apply sre_match_sound in Hm as (t & s' & gr & -> & Hm & [= <- <-]).
  destruct s' as [|? ?]; [|done]. rewrite !app_nil_r.
  apply matches_format_regex in Hm as (D & M & Y & -> & -> & HD & HM & HY).
  simpl. intros Hdate. by exists D, M, Y.
Qed.

Lemma range_cases (lo hi c : N) :
  (lo <= c <= hi)%N ->
  In c (List.map (fun i => lo + N.of_nat i)%N
          (seq 0 (S (N.to_nat (hi - lo))))).
Proof.
  intros H. apply in_map_iff. exists (N.to_nat (c - lo)). split; [lia|].
  apply in_seq. lia.
Qed.

Ltac enum_ranges :=
  repeat match goal with
  | H : (_ <= _ <= _)%N |- _ =>
      apply range_cases in H; cbv in H;
      decompose [or] H; clear H; try contradiction; subst
  end.

Lemma sre_match_directive_d {X} D rest g (k : cont X) x :
  matches day_alts D [] ->
  k D (chr "." :: rest) (("d"%string, D) :: g) = Some x ->
  sre_match directive_d (D ++ chr "." :: rest) g k = Some x.
Proof.
  unfold day_alts. intros HD Hk. inv_matches; enum_ranges;
    cbn in Hk |- *;
    repeat match goal with
    | H : Py_UNICODE_ISDECIMAL _ = true |- _ => rewrite H; cbn
    end;
    by rewrite Hk.
Qed.

Lemma sre_match_directive_m {X} M rest g (k : cont X) x :
  matches month_alts M [] ->
  k M (chr "." :: rest) (("m"%string, M) :: g) = Some x ->
  sre_match directive_m (M ++ chr "." :: rest) g k = Some x.
Proof.
  unfold month_alts. intros HM Hk. inv_matches; enum_ranges;
    cbn in Hk |- *; by rewrite Hk.
Qed.

Lemma sre_match_directive_Y {X} Y rest g (k : cont X) :
  matches year_digits Y [] ->
  sre_match directive_Y (Y ++ rest) g k = k Y rest (("Y"%string, Y) :: g).
Proof.
  unfold year_digits. intros HY. inv_matches. cbn.
  repeat match goal with
  | H : Py_UNICODE_ISDECIMAL _ = true |- _ => rewrite H; cbn
  end.
  done.
Qed.

Lemma sre_match_Cat {X} r1 r2 s g (k : cont X) :
  sre_match (Cat r1 r2) s g k
  = sre_match r1 s g (fun t1 s1 g1 =>
      sre_match r2 s1 g1 (fun t2 => k (t1 ++ t2))).
Proof. reflexivity. Qed.

Lemma sre_match_Chr {X} c s g (k : cont X) :
  sre_match (Chr c) (c :: s) g k = k [c] s g.
Proof. simpl. by rewrite N.eqb_refl. Qed.

Lemma strptime_complete s dt : strptime_accepts s dt -> strptime s = Ok dt.
Proof.
  intros (D & M & Y & -> & HD & HM & HY & Hdate).
  unfold strptime, re_match, format_regex. cbn [app].
  rewrite sre_match_Cat.
  erewrite (sre_match_directive_d D); [|done|].
  2:{ rewrite sre_match_Cat, sre_match_Chr, sre_match_Cat.
      erewrite (sre_match_directive_m M); [|done|]; [reflexivity|].
      rewrite sre_match_Cat, sre_match_Chr.
      rewrite <- (app_nil_r Y) at 1.
      rewrite (sre_match_directive_Y Y []) by done. reflexivity. }
  simpl. exact Hdate.
Qed.

(** *** The zero-padded text of a date *)

Lemma Zrange_cases (lo hi c : Z) :
  lo <= c <= hi ->
  In c (List.map (fun i => lo + Z.of_nat i)
          (seq 0 (S (Z.to_nat (hi - lo))))).
Proof.
  intros H. apply in_map_iff. exists (Z.to_nat (c - lo)). split; [lia|].
  apply in_seq. lia.
Qed.

Lemma matches_Cat_cons r1 r2 c t :
  matches r1 [c] [] -> matches r2 t [] -> matches (Cat r1 r2) (c :: t) [].
Proof. intros H1 H2. apply (matches_Cat r1 r2 [c] t [] [] H1 H2). Qed.

Ltac solve_matches :=
  lazymatch goal with
  | |- matches (Alt _ _) _ _ =>
      first [ apply matches_Alt_l; solve_matches
            | apply matches_Alt_r; solve_matches ]
  | |- matches (Cat _ _) (_ :: _) _ => apply matches_Cat_cons; solve_matches
  | |- matches (Chr _) _ _ => apply matches_Chr
  | |- matches (Range _ _) _ _ => apply matches_Range; cbv; intuition congruence
  | |- matches Digit _ _ => apply matches_Digit; assumption
  end.

Ltac enum_Z d lo hi :=
  let H := fresh in
  assert (H : lo <= d <= hi) by lia;
  apply Zrange_cases in H; cbv in H;
  decompose [or] H; clear H; try contradiction; subst d.

Ltac compute_text f :=
  match goal with
  | |- context [f ?n] =>
      let t := eval vm_compute in (f n) in change (f n) with t
  end.

Lemma matches_day_two_digits d :
  1 <= d <= 31 -> matches day_alts (two_digits d) [].
Proof.
  intros Hd. enum_Z d 1 31; compute_text two_digits; unfold day_alts;
    try solve_matches.
  all: apply matches_Alt_r, matches_Alt_l, matches_Cat_cons;
    [solve_matches|by apply matches_Digit].
Qed.

Lemma matches_month_two_digits m :
  1 <= m <= 12 -> matches month_alts (two_digits m) [].
Proof.
  intros Hm. enum_Z m 1 12; compute_text two_digits; unfold month_alts;
    solve_matches.
Qed.

Lemma todecimal_digit_chr v :
  0 <= v <= 9 -> Py_UNICODE_TODECIMAL (digit_chr v) = Some (Z.to_N v).
Proof.
  intros Hv. unfold Py_UNICODE_TODECIMAL, decimal_runs, todecimal_in, digit_chr.
  destruct (N.leb_spec 48 (48 + Z.to_N v)); [|lia].
  destruct (N.ltb_spec (48 + Z.to_N v) (48 + 10)); [|lia].
  simpl. f_equal. lia.
Qed.

Lemma isdecimal_digit_chr v :
  0 <= v <= 9 -> Py_UNICODE_ISDECIMAL (digit_chr v) = true.
Proof.
  intros Hv. unfold Py_UNICODE_ISDECIMAL. by rewrite todecimal_digit_chr.
Qed.

Lemma isspace_digit_chr v : 0 <= v <= 9 -> isspace (digit_chr v) = false.
Proof. intros Hv. enum_Z v 0 9; reflexivity. Qed.

Lemma mod_10_digit v : 0 <= v mod 10 <= 9.
Proof. pose proof (Z.mod_pos_bound v 10). lia. Qed.

Lemma matches_year_four_digits y : matches year_digits (four_digits y) [].
Proof.
  unfold year_digits, four_digits.
  repeat apply matches_Cat_cons;
    apply matches_Digit, isdecimal_digit_chr, mod_10_digit.
Qed.

Lemma lstrip_no_space s :
  Forall (fun c => isspace c = false) s -> lstrip s = s.
Proof. destruct 1 as [|c s Hc _]; simpl; [done|]. by rewrite Hc. Qed.

Lemma strip_no_space s :
  Forall (fun c => isspace c = false) s -> strip s = s.
Proof.
  intros Hs. unfold strip. rewrite (lstrip_no_space s Hs).
  rewrite lstrip_no_space; [apply rev_involutive|].
  apply List.Forall_rev, Hs.
Qed.

Lemma int_two_digits n : 0 <= n <= 99 -> int (two_digits n) = Ok n.
Proof.
  intros Hn. unfold int, two_digits.
  assert (H1 : 0 <= n / 10 mod 10 <= 9) by apply mod_10_digit.
  assert (H2 : 0 <= n mod 10 <= 9) by apply mod_10_digit.
  rewrite strip_no_space
    by (repeat constructor; by apply isspace_digit_chr).
  simpl. rewrite !todecimal_digit_chr by done. simpl.
  f_equal. rewrite !Z2N.id by lia.
  clear H1 H2. Z.div_mod_to_equations. lia.
Qed.

Lemma int_four_digits n : 0 <= n <= 9999 -> int (four_digits n) = Ok n.
Proof.
  intros Hn. unfold int, four_digits.
  assert (H1 : 0 <= n / 1000 mod 10 <= 9) by apply mod_10_digit.
  assert (H2 : 0 <= n / 100 mod 10 <= 9) by apply mod_10_digit.
  assert (H3 : 0 <= n / 10 mod 10 <= 9) by apply mod_10_digit.
  assert (H4 : 0 <= n mod 10 <= 9) by apply mod_10_digit.
  rewrite strip_no_space
    by (repeat constructor; by apply isspace_digit_chr).
  simpl. rewrite !todecimal_digit_chr by done. simpl.
  f_equal. rewrite !Z2N.id by lia.
  clear H1 H2 H3 H4. Z.div_mod_to_equations. lia.
Qed.

Lemma days_in_month_le y m : 1 <= m <= 12 -> days_in_month y m <= 31.
Proof.
  intros Hm. unfold days_in_month.
  enum_Z m 1 12; destruct (is_leap y); simpl; lia.
Qed.

Lemma valid_date_bounds d :
  valid_date d ->
  1 <= year d <= 9999 /\ 1 <= month d <= 12 /\ 1 <= day d <= 31.
Proof.
  unfold valid_date, check_date_fields, MINYEAR, MAXYEAR.
  rewrite !andb_true_iff, !Z.leb_le. intros H.
  pose proof (days_in_month_le (year d) (month d)). lia.
Qed.

(** The zero-padded text of a real date parses to that date. *)
Lemma strptime_dmY_text d : valid_date d -> strptime (dmY_text d) = Ok d.
Proof.
  intros Hd. destruct (valid_date_bounds d Hd) as (Hy & Hm & Hday).
  apply strptime_complete.
  exists (two_digits (day d)), (two_digits (month d)), (four_digits (year d)).
  split; [reflexivity|]. split; [by apply matches_day_two_digits|].
  split; [by apply matches_month_two_digits|].
  split; [apply matches_year_four_digits|].
  rewrite !int_two_digits, int_four_digits by lia. simpl.
  rewrite date_new_check, Hd. by destruct d.
Qed.

Lemma drop_zeros_four_digits y :
  1000 <= y <= 9999 -> drop_zeros (four_digits y) = four_digits y.
Proof.
  intros Hy. unfold four_digits, drop_zeros, digit_chr.
  destruct (N.eqb_spec (48 + Z.to_N (y / 1000 mod 10)) 48) as [He|]; [|done].
  exfalso. rewrite Z.mod_small in He by (Z.div_mod_to_equations; lia).
  assert (1 <= y / 1000) by (Z.div_mod_to_equations; lia). lia.
Qed.

Lemma strftime_dmY_text pad_year d :
  pad_year = true \/ 1000 <= year d <= 9999 ->
  strftime pad_year d = dmY_text d.
Proof.
  intros H. unfold strftime, dmY_text, year_text.
  destruct pad_year; [done|]. destruct H as [|H]; [done|].
  by rewrite drop_zeros_four_digits.
Qed.

Lemma strptime_valid s d : strptime s = Ok d -> valid_date d.
Proof.
  intros (D & M & Y & _ & _ & _ & _ & H)%strptime_sound.
  destruct (int D) as [vd|]; [|done]. destruct (int M) as [vm|]; [|done].
  destruct (int Y) as [vy|]; [|done]. simpl in H.
  rewrite date_new_check in H. unfold valid_date.
  destruct (check_date_fields vy vm vd) eqn:Hc; [|done].
  by injection H as <-.
Qed.

(** C3 (as the code has it): for a real date (year 1 to 9999) the
    zero-padded text [DD.MM.YYYY] is accepted, the stored value is that
    date, and formatting it gives the text back (for a year below 1000
    only where [strftime] pads the year).  In general [Birthday(s)]
    succeeds exactly on the strings [strptime]'s pattern describes, which
    include days and months without the leading zero, whose numbers make
    a real date; the stored value is always a real date, and every other
    string, ["31.02.2020"] among them, raises the class's [ValueError]. *)
Theorem birthday_init_spec :
  (forall d, valid_date d ->
     Birthday_init (dmY_text d) = Ok (mkField d)
     /\ forall pad_year, pad_year = true \/ 1000 <= year d ->
          strftime pad_year d = dmY_text d)
  /\ (forall s b, Birthday_init s = Ok b <-> strptime_accepts s (value b))
  /\ (forall s b, Birthday_init s = Ok b -> valid_date (value b))
  /\ (forall s, (forall d, ¬ strptime_accepts s d) ->
        Birthday_init s
        = Raise (ValueError "Invalid date format. Use DD.MM.YYYY"))
  /\ Birthday_init (str "31.02.2020")
     = Raise (ValueError "Invalid date format. Use DD.MM.YYYY").
Proof.
  assert (Hiff : forall s b,
            Birthday_init s = Ok b <-> strptime_accepts s (value b)).
  { intros s [d]. unfold Birthday_init. simpl. split.
    - destruct (strptime s) as [d'|[msg]] eqn:Hs; [|done].
      intros [= ->]. by apply strptime_sound.
    - intros Hs%strptime_complete. by rewrite Hs. }
  split; [|split; [exact Hiff|split; [|split]]].
  - intros d Hd. split.
    + unfold Birthday_init. by rewrite strptime_dmY_text.
    + intros pad_year Hpad. apply strftime_dmY_text.
      destruct (valid_date_bounds d Hd) as (Hy & _).
      destruct Hpad as [Hpad|Hpad]; [by left|right; lia].
  - intros s [d]. unfold Birthday_init. simpl.
    destruct (strptime s) as [d'|[msg]] eqn:Hs; [|done].
    intros [= ->]. by apply strptime_valid in Hs.
  - intros s Hno. unfold Birthday_init.
    destruct (strptime s) as [d|[msg]] eqn:Hs; [|done].
    by apply strptime_sound, Hno in Hs.
  - vm_compute; reflexivity.
Qed.

(** ["02.01.1990"] is stored as 2 January 1990 and formats back to
    itself; the date stored for ["1.1.2020"] is a real date. *)
Lemma birthday_init_spec_examples :
  (Birthday_init (str "02.01.1990") = Ok (mkField (mkdate 1990 1 2))
   /\ strftime false (mkdate 1990 1 2) = str "02.01.1990")
  /\ strptime_accepts (str "1.1.2020") (mkdate 2020 1 1)
  /\ valid_date (mkdate 2020 1 1).
Proof.
  destruct birthday_init_spec as (Hround & Hiff & Hvalid & _ & _).
  split; [|split].
  - destruct (Hround (mkdate 1990 1 2)) as [Hparse Hformat];
      [vm_compute; reflexivity|].
    split; [exact Hparse|]. apply (Hformat false). right. simpl. lia.
  - apply (Hiff (str "1.1.2020") (mkField (mkdate 2020 1 1))).
    vm_compute; reflexivity.
  - apply (Hvalid (str "1.1.2020") (mkField (mkdate 2020 1 1))).
    vm_compute; reflexivity.
Defined.

(** ["1.1.2020"] is not in the format [DD.MM.YYYY], yet it is accepted;
    the stored date formats as ["01.01.2020"]. *)
Lemma birthday_init_accepts_unpadded :
  Birthday_init (str "1.1.2020") = Ok (mkField (mkdate 2020 1 1))
  /\ (forall pad_year, strftime pad_year (mkdate 2020 1 1) = str "01.01.2020")
  /\ str "01.01.2020" ≠ str "1.1.2020".
Proof.
  split; [vm_compute; reflexivity|]. split; [by intros []|].
  vm_compute. discriminate.
Qed.

(** Where the C library does not pad [%Y], a year below 1000 does not
    format back to its four-digit text. *)
Lemma strftime_unpadded_year :
  Birthday_init (str "01.01.0999") = Ok (mkField (mkdate 999 1 1))
  /\ strftime false (mkdate 999 1 1) = str "01.01.999".
Proof. split; vm_compute; reflexivity. Qed.

(** ** The upcoming-birthdays loop *)

Lemma upcoming_loop_state today records acc σ :
  snd (upcoming_loop today records acc σ) = σ.
Proof.
  revert acc. induction records as [|l records IH]; intros acc; [done|].
  simpl. munfold. simpl.
  destruct (birthday (heap σ !!! l)) as [b|]; [|apply IH].
  destruct (days_until_birthday today b) as [d|e]; [|done].
  destruct ((0 <=? d) && (d <=? 7)); apply IH.
Qed.

Lemma get_upcoming_birthdays_state today σ :
  snd (AddressBook_get_upcoming_birthdays today σ) = σ.
Proof.
  unfold AddressBook_get_upcoming_birthdays. munfold. simpl.
  apply upcoming_loop_state.
Qed.

(** C10: [get_upcoming_birthdays] only reads: the address book's mapping
    and every object are the same after the call as before it, whether the
    call returns or raises. *)
Theorem get_upcoming_birthdays_read_only today σ :
  snd (AddressBook_get_upcoming_birthdays today σ) = σ.
Proof.
  unfold AddressBook_get_upcoming_birthdays. munfold. simpl.
  apply upcoming_loop_state.
Qed.

(** The loop body computes the specification's delta, and raises exactly
    where the specification's candidate date does not exist. *)
Lemma days_until_birthday_spec today b :
  match days_until_birthday today b with
  | Ok d => spec_delta today (value b) = Some d
  | Raise _ => spec_delta today (value b) = None
  end.
Proof.
  unfold days_until_birthday, spec_delta, spec_candidate, date_replace_year,
    date_sub_days.
  rewrite date_new_check.
  destruct (check_date_fields (year today) _ _); simpl; [|done].
  unfold toordinal at 1 3 5 7. simpl.
  destruct (_ <? 0); simpl; [|done].
  rewrite date_new_check.
  destruct (check_date_fields (year today + 1) _ _); done.
Qed.


(** The query returns exactly when every birthday of the address book has
    the candidate dates the rule needs; otherwise it raises. *)
Lemma upcoming_loop_returns today records acc σ :
  (exists ls, fst (upcoming_loop today records acc σ) = Ok ls) <->
  Forall (fun l => forall b, birthday (heap σ !!! l) = Some b ->
                     is_Some (spec_delta today (value b))) records.
Proof.
  revert acc. induction records as [|l records IH]; intros acc; simpl.
  - split; [constructor|]. intros _. by exists acc.
  - munfold. simpl. rewrite Forall_cons.
    destruct (birthday (heap σ !!! l)) as [b|] eqn:Hb.
    + pose proof (days_until_birthday_spec today b) as Hd.
      destruct (days_until_birthday today b) as [d|e]; simpl.
      * assert (Hl : forall b0, Some b = Some b0 ->
                       is_Some (spec_delta today (value b0))).
        { intros b0 [= <-]. by rewrite Hd. }
        destruct ((0 <=? d) && (d <=? 7)); rewrite IH; tauto.
      * split; [by intros [ls ?]|]. intros [Hl _].
        destruct (Hl b eq_refl) as [d Hd']. congruence.
    + rewrite IH. split; [|tauto]. intros H. split; [done|exact H].
Qed.

(** A 29 February has no candidate in a year that is not a leap year. *)
Lemma spec_delta_leap_day today b :
  month b = 2 -> day b = 29 -> is_leap (year today) = false ->
  spec_delta today b = None.
Proof.
  intros Hm Hd Hleap. unfold spec_delta, spec_candidate, check_date_fields.
  rewrite Hm, Hd. unfold days_in_month. rewrite Hleap. simpl.
  by rewrite !andb_false_r.
Qed.

(** So one such birthday in the address book makes the query raise. *)
Lemma get_upcoming_birthdays_leap_day today σ k l b :
  (k, l) ∈ data σ ->
  birthday (heap σ !!! l) = Some b ->
  month (value b) = 2 -> day (value b) = 29 ->
  is_leap (year today) = false ->
  is_Raise (fst (AddressBook_get_upcoming_birthdays today σ)).
Proof.
  intros Hin Hb Hm Hd Hleap.
  unfold AddressBook_get_upcoming_birthdays. munfold. simpl.
  destruct (fst (upcoming_loop today (dict_values (data σ)) [] σ))
    as [ls|e] eqn:Hrun; [|done].
  assert (Hret : exists ls, fst (upcoming_loop today (dict_values (data σ))
                                   [] σ) = Ok ls) by eauto.
  apply upcoming_loop_returns in Hret. rewrite Forall_forall in Hret.
  assert (Hl : l ∈ dict_values (data σ)).
  { unfold dict_values. apply list_elem_of_fmap. by exists (k, l). }
  destruct (Hret l Hl b Hb) as [d Hsome].
  by rewrite (spec_delta_leap_day today (value b)) in Hsome.
Qed.



(** A key that is new goes to the end of the iteration order; a key that
    is present keeps its place. *)
Lemma dict_values_setitem_new {V} (k : pystr) (v : V) (d : dict pystr V) :
  k ∉ dict_keys d -> dict_values (dict_setitem k v d) = dict_values d ++ [v].
Proof.
  induction d as [|[k' v'] d IH]; simpl; [done|].
  intros [Hne Hk]%not_elem_of_cons.
  destruct (decide (k' = k)); [congruence|]. simpl.
  f_equal. by apply IH.
Qed.

Lemma dict_keys_setitem_present {V} (k : pystr) (v : V) (d : dict pystr V) :
  k ∈ dict_keys d -> dict_keys (dict_setitem k v d) = dict_keys d.
Proof.
  induction d as [|[k' v'] d IH]; simpl; [by intros ?%elem_of_nil|].
  intros Hk. destruct (decide (k' = k)); [done|]. simpl. f_equal.
  apply IH. apply elem_of_cons in Hk as [Hk|Hk]; [congruence|done].
Qed.



(** C6 (the code raises): with a 29 February birthday in the address book
    and today in a year that is not a leap year, [replace(year=today.year)]
    raises [ValueError] and so does the query. *)
Theorem get_upcoming_birthdays_leap_day_raises :
  Birthday_init (str "29.02.2000") = Ok (mkField (mkdate 2000 2 29)) /\
  AddressBook_get_upcoming_birthdays (mkdate 2023 3 1) st_leap_day
    = (Raise (ValueError "day is out of range for month"), st_leap_day).
Proof. split; vm_compute; reflexivity. Qed.

(** ** Calls that raise *)

(** C8: a call other than [edit_phone] that raises ([add_phone] with an
    invalid number, [add_birthday] with a date that does not parse,
    [delete] of an absent name, ...) leaves the objects and the address
    book's mapping as they were. *)
Theorem failed_call_leaves_state o σ :
  is_edit_phone o = false ->
  is_Raise (fst (run o σ)) ->
  snd (run o σ) = σ.
Proof.
  destruct o as [n|self p|self p|self p q|self p|self b|rec|n|n|today];
    simpl; intros Hedit; try discriminate Hedit.
  - unfold Record_init. munfold. simpl. done.
  - unfold Record_add_phone. munfold. simpl.
    destruct (Phone_init p); simpl; done.
  - unfold Record_remove_phone. munfold. simpl. done.
  - unfold Record_find_phone. munfold. simpl. done.
  - unfold Record_add_birthday. munfold. simpl.
    destruct (Birthday_init b); simpl; done.
  - unfold AddressBook_add_record. munfold. simpl. done.
  - unfold AddressBook_find. munfold. simpl. done.
  - unfold AddressBook_delete. munfold. simpl.
    destruct (dict_contains n (data σ)); simpl; done.
  - intros _. munfold.
    pose proof (upcoming_loop_state today (dict_values (data σ)) [] σ) as Hs.
    unfold AddressBook_get_upcoming_birthdays. munfold. simpl.
    destruct (upcoming_loop today _ [] σ) as [[ls|e] σ']; simpl in *; done.
Qed.

(** [add_phone] with a nine-digit number raises and changes nothing. *)
Lemma failed_call_leaves_state_add_phone :
  is_Raise (fst (run (AddPhone 0%nat (str "123456789")) st_rollover)) /\
  snd (run (AddPhone 0%nat (str "123456789")) st_rollover) = st_rollover.
Proof.
  assert (H : is_Raise
                (fst (run (AddPhone 0%nat (str "123456789")) st_rollover))).
  { vm_compute. exact I. }
  split; [exact H|].
  apply (failed_call_leaves_state (AddPhone 0%nat (str "123456789"))
           st_rollover); [reflexivity|exact H].
Defined.

(** ** [remove_phone] *)

Lemma filter_length_split {A} (P : A -> Prop) `{!forall x, Decision (P x)}
    (l : list A) :
  length l = (length (filter (fun x => ¬ P x) l) + length (filter P l))%nat.
Proof.
  induction l as [|x l IH]; [done|].
  rewrite !filter_cons. destruct (decide (P x)), (decide (¬ P x));
    simpl; try lia; tauto.
Qed.

(** C9: [remove_phone] always returns; the record's new phone list is the
    old one without the phones whose value is the given string: a sublist
    (same relative order), holding exactly the phones with another value,
    shorter by the number of phones with that value; with no such phone
    the list is the same.  Name and birthday stay. *)
Theorem remove_phone_spec self phone σ :
  let r := heap σ !!! self in
  exists ps',
    Record_remove_phone self phone σ
      = (Ok tt,
         mkState (<[self := mkRecord (name r) ps' (birthday r)]> (heap σ))
                 (data σ))
    /\ ps' `sublist_of` phones r
    /\ (forall p, p ∈ ps' <-> p ∈ phones r /\ value p ≠ phone)
    /\ length (phones r)
       = (length ps'
          + length (filter (fun p => value p = phone) (phones r)))%nat
    /\ (phone ∉ value <$> phones r -> ps' = phones r).
Proof.
  intros r. exists (filter (fun p => value p ≠ phone) (phones r)).
  split; [reflexivity|]. split; [apply sublist_filter|].
  split; [intros p; rewrite list_elem_of_filter; tauto|].
  split; [apply (filter_length_split (fun p => value p = phone))|].
  intros Hnot. induction (phones r) as [|p ps IH]; [done|].
  rewrite fmap_cons in Hnot. apply not_elem_of_cons in Hnot as [Hp Hps].
  rewrite filter_cons.
  destruct (decide (value p ≠ phone)) as [_|Hn]; [|contradict Hn; congruence].
  f_equal. by apply IH.
Qed.

(** ** [edit_phone] *)

Lemma edit_phone_loop_not_found self old_phone new_phone i ps σ :
  old_phone ∉ value <$> ps ->
  edit_phone_loop self old_phone new_phone i ps σ
    = (Raise (ValueError "Phone number not found."), σ).
Proof.
  revert i. induction ps as [|p ps IH]; intros i Hnot; [done|].
  rewrite fmap_cons in Hnot. apply not_elem_of_cons in Hnot as [Hp Hps].
  simpl. destruct (decide (value p = old_phone)); [congruence|].
  by apply IH.
Qed.

Lemma edit_phone_loop_found self old_phone new_phone σ seen pre p post :
  phones (heap σ !!! self) = seen ++ pre ++ p :: post ->
  old_phone ∉ value <$> pre ->
  value p = old_phone ->
  edit_phone_loop self old_phone new_phone (length seen) (pre ++ p :: post) σ
    = (Phone_validate new_phone,
       mkState (<[self := set_phones (heap σ !!! self)
                            (seen ++ pre ++ mkField new_phone :: post)]>
                  (heap σ))
               (data σ)).
Proof.
  revert seen. induction pre as [|q pre IH]; intros seen Hps Hnot Hp.
  - simpl in *. destruct (decide (value p = old_phone)); [|done].
    munfold. simpl. rewrite Hps.
    replace (length seen) with (length seen + 0)%nat by lia.
    by rewrite insert_app_r.
  - rewrite fmap_cons in Hnot. apply not_elem_of_cons in Hnot as [Hq Hnot].
    simpl. destruct (decide (value q = old_phone)); [congruence|].
    specialize (IH (seen ++ [q])).
    rewrite length_app, Nat.add_1_r, <- !app_assoc in IH. simpl in IH.
    by apply IH.
Qed.

(** C4: [edit_phone] raises "not found" and changes nothing when no phone
    has the value [old_phone]; otherwise it assigns [new_phone] to the
    first phone with that value and then validates [new_phone], so that
    the call's outcome is the validation's and, when the validation
    raises, the phone already holds the invalid value. *)
Theorem edit_phone_spec self old_phone new_phone σ :
  let r := heap σ !!! self in
  (old_phone ∉ value <$> phones r ->
   Record_edit_phone self old_phone new_phone σ
     = (Raise (ValueError "Phone number not found."), σ))
  /\ (forall pre p post,
        phones r = pre ++ p :: post ->
        old_phone ∉ value <$> pre ->
        value p = old_phone ->
        let σ' := mkState
                    (<[self := set_phones r
                                 (pre ++ mkField new_phone :: post)]>
                       (heap σ))
                    (data σ) in
        Record_edit_phone self old_phone new_phone σ
          = (Phone_validate new_phone, σ')
        /\ (re_fullmatch phone_pattern new_phone = None ->
            Record_edit_phone self old_phone new_phone σ
              = (Raise (ValueError "Phone number must be 10 digits."), σ')
            /\ phones (heap σ' !!! self)
               = pre ++ mkField new_phone :: post)).
Proof.
  intros r. split.
  - intros Hnot. unfold Record_edit_phone. munfold. simpl.
    by apply edit_phone_loop_not_found.
  - intros pre p post Hps Hnot Hp σ'.
    assert (Hrun : Record_edit_phone self old_phone new_phone σ
                   = (Phone_validate new_phone, σ')).
    { unfold Record_edit_phone. munfold. simpl. fold r. rewrite Hps.
      apply (edit_phone_loop_found self old_phone new_phone σ [] pre p post);
        done. }
    split; [done|]. intros Hbad. split.
    + rewrite Hrun. unfold Phone_validate. by rewrite Hbad.
    + unfold σ'. simpl. by rewrite lookup_total_insert_eq.
Qed.

(** Editing Ann's phone to ["12345"] raises the validation error and
    leaves ["12345"] in the phone list; editing a phone she does not have
    raises "not found" and changes nothing. *)
Lemma edit_phone_spec_examples :
  (exists σ',
     Record_edit_phone 0%nat (str "1111111111") (str "12345") st_phone
       = (Raise (ValueError "Phone number must be 10 digits."), σ')
     /\ phones (heap σ' !!! 0%nat) = [mkField (str "12345")])
  /\ Record_edit_phone 0%nat (str "2222222222") (str "3333333333") st_phone
     = (Raise (ValueError "Phone number not found."), st_phone).
Proof.
  split.
  - destruct (edit_phone_spec 0%nat (str "1111111111") (str "12345")
                st_phone) as [_ Hfound].
    destruct (Hfound [] (mkField (str "1111111111")) []) as [_ Hbad].
    + vm_compute; reflexivity.
    + apply not_elem_of_nil.
    + reflexivity.
    + eexists. apply Hbad. vm_compute; reflexivity.
  - apply (edit_phone_spec 0%nat (str "2222222222") (str "3333333333")
             st_phone).
    vm_compute. intros H. inversion H as [|? ? ? H']; inversion H'.
Defined.

(** ** The key of an entry is its record's name *)

Lemma names_kept_heap σ σ' : heap σ' = heap σ -> names_kept σ σ'.
Proof. intros Hh l r Hl. exists r. by rewrite Hh. Qed.

Lemma names_kept_refl σ : names_kept σ σ.
Proof. by apply names_kept_heap. Qed.

Lemma names_kept_store σ self ps b d :
  names_kept σ
    (mkState (<[self := mkRecord (name (heap σ !!! self)) ps b]> (heap σ)) d).
Proof.
  intros l r Hl. simpl. destruct (decide (self = l)) as [->|Hne].
  - rewrite lookup_insert_eq. eexists; split; [done|]. simpl.
    by rewrite (lookup_total_correct _ _ _ Hl).
  - rewrite lookup_insert_ne by done. by exists r.
Qed.

Lemma names_kept_alloc σ r0 d :
  names_kept σ (mkState (<[fresh (dom (heap σ)) := r0]> (heap σ)) d).
Proof.
  intros l r Hl. simpl. rewrite lookup_insert_ne; [by exists r|].
  intros <-. apply (is_fresh (dom (heap σ))). apply elem_of_dom. by exists r.
Qed.

Lemma edit_phone_loop_state self old_phone new_phone i ps σ :
  snd (edit_phone_loop self old_phone new_phone i ps σ) = σ
  \/ exists ps',
       snd (edit_phone_loop self old_phone new_phone i ps σ)
       = mkState (<[self := set_phones (heap σ !!! self) ps']> (heap σ))
                 (data σ).
Proof.
  revert i. induction ps as [|p ps IH]; intros i; simpl; [by left|].
  destruct (decide (value p = old_phone)); [|apply IH].
  right. munfold. simpl. eexists.
  destruct (Phone_validate new_phone); reflexivity.
Qed.

Lemma run_names_kept o σ : names_kept σ (snd (run o σ)).
Proof.
  destruct o as [n|self p|self p|self p q|self p|self b|rec|n|n|today]; simpl.
  - unfold Record_init. munfold. simpl. apply names_kept_alloc.
  - unfold Record_add_phone. munfold. simpl.
    destruct (Phone_init p); simpl;
      [apply names_kept_store|apply names_kept_refl].
  - unfold Record_remove_phone. munfold. simpl. apply names_kept_store.
  - unfold Record_edit_phone. munfold. simpl.
    destruct (edit_phone_loop_state self p q 0 (phones (heap σ !!! self)) σ)
      as [->|[ps' ->]]; [apply names_kept_refl|apply names_kept_store].
  - unfold Record_find_phone. munfold. simpl. apply names_kept_refl.
  - unfold Record_add_birthday. munfold. simpl.
    destruct (Birthday_init b); simpl;
      [apply names_kept_store|apply names_kept_refl].
  - unfold AddressBook_add_record. munfold. simpl. by apply names_kept_heap.
  - unfold AddressBook_find. munfold. simpl. apply names_kept_refl.
  - unfold AddressBook_delete. munfold. simpl.
    destruct (dict_contains n (data σ)); simpl; by apply names_kept_heap.
  - munfold.
    pose proof (get_upcoming_birthdays_state today σ) as Hs.
    destruct (AddressBook_get_upcoming_birthdays today σ) as [[ls|e] σ'];
      simpl in *; subst σ'; apply names_kept_refl.
Qed.

Lemma elem_of_dict_setitem {V} (k k' : pystr) (v v' : V) (d : dict pystr V) :
  (k', v') ∈ dict_setitem k v d -> (k', v') ∈ d \/ (k', v') = (k, v).
Proof.
  induction d as [|[k0 v0] d IH]; simpl.
  - intros ->%list_elem_of_singleton. by right.
  - destruct (decide (k0 = k)) as [->|Hne].
    + intros [->|H]%elem_of_cons; [by right|]. left. by apply elem_of_cons; right.
    + intros [->|H]%elem_of_cons; [left; apply elem_of_cons; by left|].
      destruct (IH H) as [H'|H']; [|by right].
      left. by apply elem_of_cons; right.
Qed.

Lemma elem_of_dict_delitem {V} (k k' : pystr) (v' : V) (d : dict pystr V) :
  (k', v') ∈ dict_delitem k d -> (k', v') ∈ d.
Proof.
  induction d as [|[k0 v0] d IH]; simpl; [done|].
  destruct (decide (k0 = k)).
  - intros H. by apply elem_of_cons; right.
  - intros [->|H]%elem_of_cons; apply elem_of_cons; [by left|].
    right. by apply IH.
Qed.

(** The entries after a call: those before it, or the one [add_record]
    stored under the name of its record. *)
Lemma run_data o σ k l :
  (k, l) ∈ data (snd (run o σ)) ->
  (k, l) ∈ data σ
  \/ (o = AddRecord l /\ k = value (name (heap σ !!! l))).
Proof.
  destruct o as [n|self p|self p|self p q|self p|self b|rec|n|n|today]; simpl.
  - unfold Record_init. munfold. simpl. by left.
  - unfold Record_add_phone. munfold. simpl.
    destruct (Phone_init p); simpl; by left.
  - unfold Record_remove_phone. munfold. simpl. by left.
  - unfold Record_edit_phone. munfold. simpl.
    destruct (edit_phone_loop_state self p q 0 (phones (heap σ !!! self)) σ)
      as [->|[ps' ->]]; by left.
  - unfold Record_find_phone. munfold. simpl. by left.
  - unfold Record_add_birthday. munfold. simpl.
    destruct (Birthday_init b); simpl; by left.
  - unfold AddressBook_add_record. munfold. simpl.
    intros [H|[= -> ->]]%elem_of_dict_setitem; [by left|by right].
  - unfold AddressBook_find. munfold. simpl. by left.
  - unfold AddressBook_delete. munfold. simpl.
    destruct (dict_contains n (data σ)); simpl; [|by left].
    intros H%elem_of_dict_delitem. by left.
  - munfold.
    pose proof (get_upcoming_birthdays_state today σ) as Hs.
    destruct (AddressBook_get_upcoming_birthdays today σ) as [[ls|e] σ'];
      simpl in *; subst σ'; by left.
Qed.

Lemma reachable_keyed_by_name σ : reachable σ -> keyed_by_name σ.
Proof.
  induction 1 as [|σ o Hreach IH Href].
  - intros k l H. by apply elem_of_nil in H.
  - intros k l [Hold|[-> ->]]%run_data.
    + destruct (IH k l Hold) as (r & Hl & Hk).
      destruct (run_names_kept o σ l r Hl) as (r' & Hl' & Hn).
      exists r'. split; [done|]. by rewrite Hn.
    + assert (Hl : is_Some (heap σ !! l)) by (apply elem_of_dom; by apply Href).
      destruct Hl as [r Hl].
      destruct (run_names_kept (AddRecord l) σ l r Hl) as (r' & Hl' & Hn).
      exists r'. split; [done|].
      by rewrite Hn, (lookup_total_correct _ _ _ Hl).
Qed.

(** C7: in every state reached by a sequence of calls (creating records,
    [add_record], [delete], the mutators of [Record], the queries), the
    name of the record of each entry is the entry's key. *)
Theorem name_is_key σ k l :
  reachable σ ->
  (k, l) ∈ data σ ->
  value (name (heap σ !!! l)) = k.
Proof.
  intros Hreach Hin.
  destruct (reachable_keyed_by_name σ Hreach k l Hin) as (r & Hl & Hk).
  by rewrite (lookup_total_correct _ _ _ Hl).
Qed.

(** Ann's entry in the example address book: built by three calls, keyed
    by her name. *)
Lemma name_is_key_rollover :
  reachable st_rollover /\
  value (name (heap st_rollover !!! 0%nat)) = str "Ann".
Proof.
  assert (Hreach : reachable st_rollover).
  { pose (s1 := snd (run (NewRecord (str "Ann")) empty_state)).
    pose (s2 := snd (run (AddBirthday 0%nat (str "02.01.1990")) s1)).
    change st_rollover with (snd (run (AddRecord 0%nat) s2)).
    apply reachable_run; [apply reachable_run; [apply reachable_run|]|].
    - apply reachable_empty.
    - intros l [=].
    - intros l [= <-]. apply elem_of_dom, is_Some_alt. vm_compute. exact I.
    - intros l [= <-]. apply elem_of_dom, is_Some_alt. vm_compute. exact I. }
  split; [exact Hreach|].
  apply (name_is_key st_rollover (str "Ann") 0%nat Hreach).
  vm_compute. constructor.
Defined.

(** * More of the address book *)

(** ** Looking up what was stored *)

Lemma dict_get_setitem {V} (k : pystr) (v : V) (d : dict pystr V) :
  dict_get k (dict_setitem k v d) = Some v.
Proof.
  induction d as [|[k0 v0] d IH]; simpl.
  - by rewrite decide_True.
  - destruct (decide (k0 = k)) as [->|Hne]; simpl.
    + by rewrite decide_True.
    + by rewrite decide_False.
Qed.

Lemma dict_get_setitem_ne {V} (k k' : pystr) (v : V) (d : dict pystr V) :
  k' ≠ k -> dict_get k' (dict_setitem k v d) = dict_get k' d.
Proof.
  intros Hne. induction d as [|[k0 v0] d IH]; simpl.
  - by rewrite decide_False.
  - destruct (decide (k0 = k)) as [->|Hk]; simpl.
    + by rewrite !decide_False.
    + destruct (decide (k0 = k')); [done|apply IH].
Qed.

Lemma dict_get_Some_elem {V} (k : pystr) (v : V) (d : dict pystr V) :
  dict_get k d = Some v -> (k, v) ∈ d.
Proof.
  induction d as [|[k0 v0] d IH]; simpl; [done|].
  destruct (decide (k0 = k)) as [->|Hne].
  - intros [= ->]. apply elem_of_cons. by left.
  - intros H. apply elem_of_cons. right. by apply IH.
Qed.

Lemma dict_get_None_keys {V} (k : pystr) (d : dict pystr V) :
  dict_get k d = None <-> k ∉ dict_keys d.
Proof.
  induction d as [|[k0 v0] d IH]; simpl.
  - split; [intros _; apply not_elem_of_nil|done].
  - rewrite not_elem_of_cons. destruct (decide (k0 = k)) as [->|Hne].
    + split; [done|]. by intros [? _].
    + rewrite IH. split; [by split|by intros [_ ?]].
Qed.

Lemma dict_get_delitem {V} (k : pystr) (d : dict pystr V) :
  NoDup (dict_keys d) -> dict_get k (dict_delitem k d) = None.
Proof.
  induction d as [|[k0 v0] d IH]; simpl; [done|].
  intros [Hk0 Hd]%NoDup_cons. destruct (decide (k0 = k)) as [->|Hne].
  - by apply dict_get_None_keys.
  - simpl. rewrite decide_False by done. by apply IH.
Qed.

Lemma dict_get_delitem_ne {V} (k k' : pystr) (d : dict pystr V) :
  k' ≠ k -> dict_get k' (dict_delitem k d) = dict_get k' d.
Proof.
  intros Hne. induction d as [|[k0 v0] d IH]; simpl; [done|].
  destruct (decide (k0 = k)) as [->|Hk]; simpl.
  - by rewrite decide_False.
  - destruct (decide (k0 = k')); [done|apply IH].
Qed.

Lemma dict_setitem_new {V} (k : pystr) (v : V) (d : dict pystr V) :
  k ∉ dict_keys d -> dict_setitem k v d = d ++ [(k, v)].
Proof.
  induction d as [|[k0 v0] d IH]; simpl; [done|].
  intros [Hne Hk]%not_elem_of_cons.
  destruct (decide (k0 = k)); [congruence|]. f_equal. by apply IH.
Qed.

Lemma dict_keys_delitem {V} (k : pystr) (d : dict pystr V) :
  dict_keys (dict_delitem k d) `sublist_of` dict_keys d.
Proof.
  induction d as [|[k0 v0] d IH]; simpl; [done|].
  destruct (decide (k0 = k)); simpl.
  - by apply sublist_cons.
  - by apply sublist_skip.
Qed.

Lemma dict_length_delitem {V} (k : pystr) (d : dict pystr V) :
  dict_contains k d = true -> S (length (dict_delitem k d)) = length d.
Proof.
  unfold dict_contains. induction d as [|[k0 v0] d IH]; simpl; [done|].
  destruct (decide (k0 = k)); simpl; [done|]. intros H. f_equal. by apply IH.
Qed.

(** What a call does to the mapping: nothing, an assignment by
    [add_record], or a deletion by [delete]. *)
Lemma run_data_cases o σ :
  data (snd (run o σ)) = data σ
  \/ (exists record,
        o = AddRecord record
        /\ data (snd (run o σ))
           = dict_setitem (value (name (heap σ !!! record))) record (data σ))
  \/ (exists n,
        o = Delete n /\ data (snd (run o σ)) = dict_delitem n (data σ)).
Proof.
  destruct o as [n|self p|self p|self p q|self p|self b|rec|n|n|today]; simpl.
  - unfold Record_init. munfold. simpl. by left.
  - unfold Record_add_phone. munfold. simpl.
    destruct (Phone_init p); simpl; by left.
  - unfold Record_remove_phone. munfold. simpl. by left.
  - unfold Record_edit_phone. munfold. simpl.
    destruct (edit_phone_loop_state self p q 0 (phones (heap σ !!! self)) σ)
      as [->|[ps' ->]]; by left.
  - unfold Record_find_phone. munfold. simpl. by left.
  - unfold Record_add_birthday. munfold. simpl.
    destruct (Birthday_init b); simpl; by left.
  - unfold AddressBook_add_record. munfold. simpl. right. left. by exists rec.
  - unfold AddressBook_find. munfold. simpl. by left.
  - unfold AddressBook_delete. munfold. simpl.
    destruct (dict_contains n (data σ)); simpl; [|by left].
    right. right. by exists n.
  - munfold.
    pose proof (get_upcoming_birthdays_state today σ) as Hs.
    destruct (AddressBook_get_upcoming_birthdays today σ) as [[ls|e] σ'];
      simpl in *; subst σ'; by left.
Qed.

Lemma dict_setitem_NoDup {V} (k : pystr) (v : V) (d : dict pystr V) :
  NoDup (dict_keys d) -> NoDup (dict_keys (dict_setitem k v d)).
Proof.
  intros Hd. destruct (decide (k ∈ dict_keys d)) as [Hk|Hk].
  - by rewrite dict_keys_setitem_present.
  - rewrite dict_setitem_new by done. unfold dict_keys in *.
    rewrite fmap_app. simpl. apply NoDup_app. split; [done|].
    split; [|apply NoDup_singleton].
    intros x Hx ->%list_elem_of_singleton. done.
Qed.

(** The names of the address book are pairwise different. *)
Lemma reachable_keys_NoDup σ : reachable σ -> NoDup (dict_keys (data σ)).
Proof.
  induction 1 as [|σ o Hreach IH Href]; [constructor|].
  destruct (run_data_cases o σ) as [->|[(rec & _ & ->)|(n & _ & ->)]].
  - done.
  - by apply dict_setitem_NoDup.
  - apply (sublist_NoDup _ _ IH (dict_keys_delitem n (data σ))).
Qed.

Lemma find_result n σ :
  AddressBook_find n σ
  = (Ok (match dict_get n (data σ) with
         | Some l => inl l
         | None => inr (str "Contact not found.")
         end), σ).
Proof. reflexivity. Qed.

(** X1: after [add_record(record)], [find] of the record's name returns
    that very record, and [find] of any other name returns what it
    returned before. *)
Theorem add_record_then_find record σ :
  let n := value (name (heap σ !!! record)) in
  let σ' := snd (AddressBook_add_record record σ) in
  fst (AddressBook_add_record record σ) = Ok tt
  /\ fst (AddressBook_find n σ') = Ok (inl record)
  /\ forall n', n' ≠ n ->
       fst (AddressBook_find n' σ') = fst (AddressBook_find n' σ).
Proof.
  intros n σ'. subst n σ'. split; [reflexivity|]. split.
  - rewrite find_result. simpl. by rewrite dict_get_setitem.
  - intros n' Hne. rewrite !find_result. simpl.
    by rewrite dict_get_setitem_ne.
Qed.

(** X2: in a state a program reaches, [delete] of a name that is present
    returns, drops exactly one entry, makes [find] of that name answer
    "Contact not found." and leaves the answer for every other name and
    all the records as they were. *)
Theorem delete_then_find n σ :
  reachable σ ->
  dict_contains n (data σ) = true ->
  let σ' := snd (AddressBook_delete n σ) in
  fst (AddressBook_delete n σ) = Ok tt
  /\ heap σ' = heap σ
  /\ S (length (data σ')) = length (data σ)
  /\ fst (AddressBook_find n σ') = Ok (inr (str "Contact not found."))
  /\ forall n', n' ≠ n ->
       fst (AddressBook_find n' σ') = fst (AddressBook_find n' σ).
Proof.
  intros Hreach Hin σ'. subst σ'.
  assert (Hrun : AddressBook_delete n σ
                 = (Ok tt, mkState (heap σ) (dict_delitem n (data σ)))).
  { unfold AddressBook_delete. munfold. simpl. by rewrite Hin. }
  rewrite Hrun. simpl. split; [done|]. split; [done|].
  split; [by apply dict_length_delitem|]. split.
  - rewrite dict_get_delitem; [done|]. by apply reachable_keys_NoDup.
  - intros n' Hne. by rewrite dict_get_delitem_ne.
Qed.

(** X3: [add_record] never makes a second entry for a name: under a name
    that is present the names and their order stay as they are, and a
    new name is appended as the last entry.  The records are not
    touched. *)
Theorem add_record_upsert record σ :
  let n := value (name (heap σ !!! record)) in
  let σ' := snd (AddressBook_add_record record σ) in
  heap σ' = heap σ
  /\ (n ∈ dict_keys (data σ) -> dict_keys (data σ') = dict_keys (data σ))
  /\ (n ∉ dict_keys (data σ) -> data σ' = data σ ++ [(n, record)]).
Proof.
  intros n σ'. subst n σ'. simpl. split; [done|]. split.
  - apply dict_keys_setitem_present.
  - apply dict_setitem_new.
Qed.

(** ** Reaching a state by a list of calls *)

Lemma reachable_run_all os : forall σ,
  reachable σ -> refs_allocated os σ = true ->
  reachable (snd (run_all os σ)).
Proof.
  induction os as [|o os IH]; intros σ Hreach Hrefs; [done|].
  simpl in Hrefs. apply andb_true_iff in Hrefs as [Href Hrest].
  assert (Hstep : reachable (snd (run o σ))).
  { apply reachable_run; [done|]. intros l Hl. rewrite Hl in Href.
    by apply bool_decide_eq_true in Href. }
  simpl. munfold. destruct (run o σ) as [[[]|e] σ'] eqn:Hrun; simpl in *.
  - by apply IH.
  - done.
Qed.

Lemma reachable_st_two : reachable st_two.
Proof.
  apply reachable_run_all; [apply reachable_empty|]. vm_compute. reflexivity.
Qed.

Lemma reachable_st_phone : reachable st_phone.
Proof.
  apply reachable_run_all; [apply reachable_empty|]. vm_compute. reflexivity.
Qed.

(** Deleting Ann from the address book of Ann and Bob. *)
Lemma delete_then_find_ann :
  fst (AddressBook_find (str "Ann") (snd (AddressBook_delete (str "Ann") st_two)))
    = Ok (inr (str "Contact not found."))
  /\ fst (AddressBook_find (str "Bob") (snd (AddressBook_delete (str "Ann") st_two)))
    = Ok (inl 1%nat).
Proof.
  destruct (delete_then_find (str "Ann") st_two reachable_st_two)
    as (_ & _ & _ & Hgone & Hothers); [vm_compute; reflexivity|].
  split; [exact Hgone|]. rewrite Hothers; [vm_compute; reflexivity|].
  vm_compute. discriminate.
Defined.

(** ** Phones *)

Lemma first_occurrence (x : pystr) (ps : list Phone) :
  x ∈ value <$> ps ->
  exists pre p post,
    ps = pre ++ p :: post /\ (x ∉ value <$> pre) /\ value p = x.
Proof.
  induction ps as [|q ps IH]; [by intros ?%elem_of_nil|].
  rewrite fmap_cons. destruct (decide (value q = x)) as [Hq|Hq].
  - intros _. exists [], q, ps. split; [done|]. split; [|done].
    apply not_elem_of_nil.
  - intros [?|Hin]%elem_of_cons; [congruence|].
    destruct (IH Hin) as (pre & p & post & -> & Hpre & Hp).
    exists (q :: pre), p, post. split; [done|]. split; [|done].
    rewrite fmap_cons. apply not_elem_of_cons. split; [congruence|done].
Qed.

(** The two ways [edit_phone] goes. *)
Lemma edit_phone_cases self old_phone new_phone σ :
  let r := heap σ !!! self in
  ((old_phone ∉ value <$> phones r)
   /\ Record_edit_phone self old_phone new_phone σ
      = (Raise (ValueError "Phone number not found."), σ))
  \/ (exists pre p post,
        phones r = pre ++ p :: post
        /\ (old_phone ∉ value <$> pre) /\ value p = old_phone
        /\ Record_edit_phone self old_phone new_phone σ
           = (Phone_validate new_phone,
              mkState (<[self := set_phones r
                                   (pre ++ mkField new_phone :: post)]>
                         (heap σ))
                      (data σ))).
Proof.
  intros r.
  destruct (decide (old_phone ∈ value <$> phones r)) as [Hin|Hnot].
  - right. destruct (first_occurrence _ _ Hin) as (pre & p & post & Hps & ? & ?).
    exists pre, p, post. repeat split; try done.
    unfold Record_edit_phone. munfold. simpl. fold r. rewrite Hps.
    by apply (edit_phone_loop_found self old_phone new_phone σ [] pre p post).
  - left. split; [done|]. unfold Record_edit_phone. munfold. simpl.
    by apply edit_phone_loop_not_found.
Qed.

Lemma Phone_validate_cases v :
  Phone_validate v = Ok tt
  \/ Phone_validate v = Raise (ValueError "Phone number must be 10 digits.").
Proof. unfold Phone_validate. destruct (re_fullmatch _ _); auto. Qed.

Lemma Phone_init_Ok v p :
  Phone_init v = Ok p -> p = mkField v /\ Phone_validate v = Ok tt.
Proof.
  unfold Phone_init. munfold.
  destruct (Phone_validate v) as [[]|e]; [|done]. by intros [= <-].
Qed.

Lemma phones_valid_total σ l :
  phones_valid σ ->
  Forall (fun p => Phone_validate (value p) = Ok tt) (phones (heap σ !!! l)).
Proof.
  intros Hv. rewrite lookup_total_alt.
  destruct (heap σ !! l) as [r|] eqn:Hl; simpl; [by eapply Hv|constructor].
Qed.

Lemma phones_valid_store σ self r d :
  phones_valid σ ->
  Forall (fun p => Phone_validate (value p) = Ok tt) (phones r) ->
  phones_valid (mkState (<[self := r]> (heap σ)) d).
Proof.
  intros Hv Hr l r'. simpl. destruct (decide (self = l)) as [->|Hne].
  - rewrite lookup_insert_eq. by intros [= <-].
  - rewrite lookup_insert_ne by done. apply Hv.
Qed.

(** X4: every call keeps all stored phone numbers valid, except an
    [edit_phone] that raises the validation error. *)
Theorem run_phones_valid o σ :
  phones_valid σ ->
  is_edit_phone o = false
  \/ fst (run o σ) ≠ Raise (ValueError "Phone number must be 10 digits.") ->
  phones_valid (snd (run o σ)).
Proof.
  intros Hv Hok.
  destruct o as [n|self p|self p|self p q|self p|self b|rec|n|n|today]; simpl.
  - unfold Record_init. munfold. simpl.
    apply phones_valid_store; [done|constructor].
  - unfold Record_add_phone. munfold. simpl.
    destruct (Phone_init p) as [ph|e] eqn:Hp; simpl; [|by destruct σ].
    apply Phone_init_Ok in Hp as [-> Hp].
    apply phones_valid_store; [done|]. apply Forall_app. split.
    + by apply phones_valid_total.
    + by repeat constructor.
  - unfold Record_remove_phone. munfold. simpl.
    apply phones_valid_store; [done|].
    pose proof (phones_valid_total σ self Hv) as Hall.
    rewrite Forall_forall in Hall |- *.
    intros x [_ Hx]%list_elem_of_filter. by apply Hall.
  - destruct Hok as [Hok|Hok]; [done|]. simpl in Hok.
    destruct (edit_phone_cases self p q σ)
      as [[_ ->]|(pre & ph & post & Hps & _ & _ & Hrun)]; [done|].
    rewrite Hrun in Hok |- *. simpl in *.
    destruct (Phone_validate_cases q) as [Hq|Hq]; [|congruence].
    apply phones_valid_store; [done|]. simpl.
    pose proof (phones_valid_total σ self Hv) as Hall. rewrite Hps in Hall.
    apply Forall_app in Hall as [Hpre Hpost].
    apply Forall_cons in Hpost as [_ Hpost].
    apply Forall_app. split; [done|]. by constructor.
  - unfold Record_find_phone. munfold. simpl. by destruct σ.
  - unfold Record_add_birthday. munfold. simpl.
    destruct (Birthday_init b); simpl; [|by destruct σ].
    apply phones_valid_store; [done|]. simpl. by apply phones_valid_total.
  - unfold AddressBook_add_record. munfold. simpl. exact Hv.
  - unfold AddressBook_find. munfold. simpl. by destruct σ.
  - unfold AddressBook_delete. munfold. simpl.
    destruct (dict_contains n (data σ)); simpl; [exact Hv|by destruct σ].
  - munfold.
    pose proof (get_upcoming_birthdays_state today σ) as Hs.
    destruct (AddressBook_get_upcoming_birthdays today σ) as [[ls|e] σ'];
      simpl in *; by subst σ'.
Qed.

Lemma phones_valid_empty : phones_valid empty_state.
Proof. intros l r Hl. simpl in Hl. by rewrite lookup_empty in Hl. Qed.

(** Ann's phone stays valid through a successful [edit_phone]. *)
Lemma run_phones_valid_edit :
  phones_valid
    (snd (run (EditPhone 0%nat (str "1111111111") (str "2222222222"))
            st_phone)).
Proof.
  apply run_phones_valid.
  - change st_phone with
      (snd (run (AddRecord 0%nat)
         (snd (run (AddPhone 0%nat (str "1111111111"))
            (snd (run (NewRecord (str "Ann")) empty_state)))))).
    repeat (apply run_phones_valid; [|by left]).
    apply phones_valid_empty.
  - right. vm_compute. discriminate.
Defined.

(** ** Birthdays *)

Lemma Birthday_init_valid s b : Birthday_init s = Ok b -> valid_date (value b).
Proof.
  unfold Birthday_init. destruct (strptime s) as [d|[msg]] eqn:Hs; [|done].
  intros [= <-]. by apply strptime_valid in Hs.
Qed.

Lemma birthdays_valid_store σ self r d :
  birthdays_valid σ ->
  (forall b, birthday r = Some b -> valid_date (value b)) ->
  birthdays_valid (mkState (<[self := r]> (heap σ)) d).
Proof.
  intros Hv Hr l r' b. simpl. destruct (decide (self = l)) as [->|Hne].
  - rewrite lookup_insert_eq. intros [= <-]. apply Hr.
  - rewrite lookup_insert_ne by done. apply Hv.
Qed.

Lemma birthdays_valid_total σ l b :
  birthdays_valid σ -> birthday (heap σ !!! l) = Some b -> valid_date (value b).
Proof.
  intros Hv. rewrite lookup_total_alt.
  destruct (heap σ !! l) as [r|] eqn:Hl; simpl; [by eapply Hv|done].
Qed.

Lemma run_birthdays_valid o σ :
  birthdays_valid σ -> birthdays_valid (snd (run o σ)).
Proof.
  intros Hv.
  destruct o as [n|self p|self p|self p q|self p|self b|rec|n|n|today]; simpl.
  - unfold Record_init. munfold. simpl. by apply birthdays_valid_store.
  - unfold Record_add_phone. munfold. simpl.
    destruct (Phone_init p); simpl; [|by destruct σ].
    apply birthdays_valid_store; [done|]. simpl. intros b.
    by apply birthdays_valid_total.
  - unfold Record_remove_phone. munfold. simpl.
    apply birthdays_valid_store; [done|]. simpl. intros b.
    by apply birthdays_valid_total.
  - destruct (edit_phone_cases self p q σ)
      as [[_ ->]|(pre & ph & post & _ & _ & _ & ->)]; [done|]. simpl.
    apply birthdays_valid_store; [done|]. simpl. intros b.
    by apply birthdays_valid_total.
  - unfold Record_find_phone. munfold. simpl. by destruct σ.
  - unfold Record_add_birthday. munfold. simpl.
    destruct (Birthday_init b) as [bd|e] eqn:Hb; simpl; [|by destruct σ].
    apply birthdays_valid_store; [done|]. simpl. intros b' [= <-].
    by apply Birthday_init_valid in Hb.
  - unfold AddressBook_add_record. munfold. simpl. exact Hv.
  - unfold AddressBook_find. munfold. simpl. by destruct σ.
  - unfold AddressBook_delete. munfold. simpl.
    destruct (dict_contains n (data σ)); simpl; [exact Hv|by destruct σ].
  - munfold.
    pose proof (get_upcoming_birthdays_state today σ) as Hs.
    destruct (AddressBook_get_upcoming_birthdays today σ) as [[ls|e] σ'];
      simpl in *; by subst σ'.
Qed.

Lemma reachable_birthdays σ : reachable σ -> birthdays_valid σ.
Proof.
  induction 1 as [|σ o _ IH _].
  - intros l r b Hl. simpl in Hl. by rewrite lookup_empty in Hl.
  - by apply run_birthdays_valid.
Qed.

(** X5: in every state a program reaches, every birthday a record holds is
    a date of the calendar (month 1 to 12, a day the month has, year 1 to
    9999), whatever strings were given to [add_birthday]. *)
Theorem reachable_birthdays_valid σ l r b :
  reachable σ ->
  heap σ !! l = Some r ->
  birthday r = Some b ->
  valid_date (value b).
Proof.
  intros Hreach. revert l r b. change (birthdays_valid σ).
  induction Hreach as [|σ o _ IH _].
  - intros l r b Hl. simpl in Hl. by rewrite lookup_empty in Hl.
  - by apply run_birthdays_valid.
Qed.

Lemma reachable_st_rollover : reachable st_rollover.
Proof.
  apply reachable_run_all; [apply reachable_empty|]. vm_compute. reflexivity.
Qed.

(** Ann's birthday in the example address book. *)
Lemma reachable_birthdays_valid_ann : valid_date (mkdate 1990 1 2).
Proof.
  apply (reachable_birthdays_valid st_rollover 0%nat
           (mkRecord (mkField (str "Ann")) [] (Some (mkField (mkdate 1990 1 2))))
           (mkField (mkdate 1990 1 2)) reachable_st_rollover).
  - vm_compute. reflexivity.
  - reflexivity.
Defined.

(** ** [find_phone] *)

Lemma find_phone_result self phone σ :
  fst (Record_find_phone self phone σ)
  = Ok (if bool_decide (phone ∈ value <$> phones (heap σ !!! self))
        then phone else str "Phone number not found.").
Proof. reflexivity. Qed.

Lemma add_phone_result self phone σ :
  Record_add_phone self phone σ
  = match Phone_init phone with
    | Ok p =>
        (Ok tt,
         mkState (<[self := set_phones (heap σ !!! self)
                              (phones (heap σ !!! self) ++ [p])]> (heap σ))
                 (data σ))
    | Raise e => (Raise e, σ)
    end.
Proof.
  unfold Record_add_phone. munfold. simpl. by destruct (Phone_init phone).
Qed.

Lemma remove_phone_result self phone σ :
  Record_remove_phone self phone σ
  = (Ok tt,
     mkState (<[self := set_phones (heap σ !!! self)
                          (filter (fun p => value p ≠ phone)
                             (phones (heap σ !!! self)))]> (heap σ))
             (data σ)).
Proof. reflexivity. Qed.

(** X6: [find_phone] returns a number that [add_phone] has just stored,
    and answers "Phone number not found." for a number right after
    [remove_phone] of it. *)
Theorem find_phone_after self phone σ :
  (fst (Record_add_phone self phone σ) = Ok tt ->
   fst (Record_find_phone self phone (snd (Record_add_phone self phone σ)))
   = Ok phone)
  /\ fst (Record_find_phone self phone
            (snd (Record_remove_phone self phone σ)))
     = Ok (str "Phone number not found.").
Proof.
  split.
  - rewrite find_phone_result, add_phone_result.
    destruct (Phone_init phone) as [p|e] eqn:Hp; simpl; [|done]. intros _.
    apply Phone_init_Ok in Hp as [-> _].
    rewrite lookup_total_insert_eq. simpl.
    rewrite bool_decide_eq_true_2; [done|].
    rewrite fmap_app. apply elem_of_app. right. simpl.
    by apply list_elem_of_singleton.
  - rewrite find_phone_result, remove_phone_result. simpl.
    rewrite lookup_total_insert_eq. simpl.
    rewrite bool_decide_eq_false_2; [done|].
    intros (p & Hv & Hp)%list_elem_of_fmap.
    apply list_elem_of_filter in Hp as [Hne _]. congruence.
Qed.

Lemma find_phone_after_example :
  fst (Record_find_phone 0%nat (str "2222222222")
         (snd (Record_add_phone 0%nat (str "2222222222") st_phone)))
  = Ok (str "2222222222").
Proof.
  apply (find_phone_after 0%nat (str "2222222222") st_phone).
  vm_compute. reflexivity.
Defined.

(** X7: [edit_phone], whether it returns or raises, changes nothing but
    the value of one phone of its record: the mapping, the other records,
    the record's name and birthday and the number of its phones stay; and
    when it returns, [find_phone] finds the new number. *)
Theorem edit_phone_frame self old_phone new_phone σ :
  let σ' := snd (Record_edit_phone self old_phone new_phone σ) in
  data σ' = data σ
  /\ (forall l, l ≠ self -> heap σ' !! l = heap σ !! l)
  /\ name (heap σ' !!! self) = name (heap σ !!! self)
  /\ birthday (heap σ' !!! self) = birthday (heap σ !!! self)
  /\ length (phones (heap σ' !!! self)) = length (phones (heap σ !!! self))
  /\ (fst (Record_edit_phone self old_phone new_phone σ) = Ok tt ->
      fst (Record_find_phone self new_phone σ') = Ok new_phone).
Proof.
  intros σ'. subst σ'.
  destruct (edit_phone_cases self old_phone new_phone σ)
    as [[_ ->]|(pre & p & post & Hps & _ & _ & ->)]; simpl.
  - repeat split; done.
  - rewrite lookup_total_insert_eq. simpl. split; [done|].
    split; [by intros l Hl; rewrite lookup_insert_ne|].
    split; [done|]. split; [done|]. split.
    + rewrite Hps, !length_app. done.
    + intros _.
      rewrite bool_decide_eq_true_2; [done|].
      rewrite fmap_app, fmap_cons. apply elem_of_app. right.
      apply elem_of_cons. by left.
Qed.

Lemma edit_phone_frame_example :
  fst (Record_find_phone 0%nat (str "2222222222")
         (snd (Record_edit_phone 0%nat (str "1111111111") (str "2222222222")
                 st_phone)))
  = Ok (str "2222222222").
Proof.
  apply (edit_phone_frame 0%nat (str "1111111111") (str "2222222222")
           st_phone).
  vm_compute. reflexivity.
Defined.

(** ** The number of days until a birthday *)

Lemma days_before_year_succ y :
  days_before_year (y + 1) = days_before_year y + 365 + leap_day y.
Proof.
  unfold days_before_year, leap_day, is_leap.
  replace (y + 1 - 1) with y by lia.
  destruct (Z.eqb_spec (y mod 4) 0), (Z.eqb_spec (y mod 100) 0),
    (Z.eqb_spec (y mod 400) 0); simpl;
    Z.div_mod_to_equations; lia.
Qed.

Lemma ymd2ord_bounds y m d :
  check_date_fields y m d = true ->
  days_before_year y + 1 <= ymd2ord y m d
  <= days_before_year y + 365 + leap_day y.
Proof.
  unfold check_date_fields, ymd2ord, days_before_month, days_in_month,
    leap_day.
  rewrite !andb_true_iff, !Z.leb_le. intros (((((_ & _) & Hm1) & Hm2) & Hd1) & Hd2).
  enum_Z m 1 12; simpl in *; destruct (is_leap y); simpl in *; lia.
Qed.

Lemma ymd2ord_inj y m d m' d' :
  check_date_fields y m d = true ->
  check_date_fields y m' d' = true ->
  ymd2ord y m d = ymd2ord y m' d' ->
  m = m' /\ d = d'.
Proof.
  unfold check_date_fields, ymd2ord, days_before_month, days_in_month.
  rewrite !andb_true_iff, !Z.leb_le.
  intros (((((_ & _) & Hm1) & Hm2) & Hd1) & Hd2).
  intros (((((_ & _) & Hm1') & Hm2') & Hd1') & Hd2').
  enum_Z m 1 12; enum_Z m' 1 12; simpl in *; destruct (is_leap y);
    simpl in *; lia.
Qed.

Lemma date_new_Ok y m d x :
  date_new y m d = Ok x ->
  check_date_fields y m d = true /\ x = mkdate y m d.
Proof.
  rewrite date_new_check. destruct (check_date_fields y m d); [|done].
  by intros [= <-].
Qed.

(** What [days_until_birthday] returns: the distance to the candidate of
    this year when that is not past, else to the candidate of next
    year. *)
Lemma days_until_birthday_Ok today b d :
  days_until_birthday today b = Ok d ->
  check_date_fields (year today) (month (value b)) (day (value b)) = true
  /\ let this_year :=
       ymd2ord (year today) (month (value b)) (day (value b))
       - toordinal today in
     ((0 <= this_year /\ d = this_year)
      \/ (this_year < 0
          /\ check_date_fields (year today + 1) (month (value b))
               (day (value b)) = true
          /\ d = ymd2ord (year today + 1) (month (value b)) (day (value b))
                 - toordinal today)).
Proof.
  unfold days_until_birthday, date_replace_year, date_sub_days. munfold.
  intros H.
  destruct (date_new (year today) _ _) as [c|e] eqn:Hc; [|done].
  apply date_new_Ok in Hc as [Hc ->]. split; [done|].
  unfold toordinal at 1 3 in H. simpl in H. cbv zeta.
  destruct (Z.ltb_spec (ymd2ord (year today) (month (value b)) (day (value b))
                        - toordinal today) 0) as [Hlt|Hge].
  - destruct (date_new (year today + 1) _ _) as [c'|e] eqn:Hc'; [|done].
    apply date_new_Ok in Hc' as [Hc' ->]. injection H as <-. right.
    split; [done|]. split; [done|]. reflexivity.
  - injection H as <-. left. done.
Qed.

(** X8: for a real date [today], the number of days the query computes
    for a birthday is never negative and never more than 365: it is the
    distance to the next occurrence of the birthday, today included. *)
Theorem days_until_birthday_range today b d :
  valid_date today ->
  days_until_birthday today b = Ok d ->
  0 <= d <= 365.
Proof.
  intros Htoday (Hc & Hcases)%days_until_birthday_Ok.
  pose proof (ymd2ord_bounds _ _ _ Htoday) as Ht.
  pose proof (ymd2ord_bounds _ _ _ Hc) as Hthis.
  unfold toordinal in *. unfold leap_day in *.
  destruct Hcases as [[Hge ->]|(Hlt & Hc' & ->)].
  - destruct (is_leap (year today)); lia.
  - pose proof (ymd2ord_bounds _ _ _ Hc') as Hnext.
    rewrite days_before_year_succ in Hnext. unfold leap_day in Hnext.
    assert (Hgap : ymd2ord (year today + 1) (month (value b)) (day (value b))
                   - ymd2ord (year today) (month (value b)) (day (value b))
                   <= 366).
    { unfold ymd2ord, days_before_month. rewrite days_before_year_succ.
      unfold leap_day.
      destruct (is_leap (year today)), (is_leap (year today + 1)),
        (month (value b) >? 2); simpl; lia. }
    destruct (is_leap (year today)), (is_leap (year today + 1)); lia.
Qed.

(** On 2 January 2024 a birthday on 1 January is 365 days ahead. *)
Lemma days_until_birthday_range_example :
  days_until_birthday (mkdate 2024 1 2) (mkField (mkdate 1990 1 1)) = Ok 365
  /\ 0 <= 365 <= 365.
Proof.
  assert (H : days_until_birthday (mkdate 2024 1 2) (mkField (mkdate 1990 1 1))
              = Ok 365) by (vm_compute; reflexivity).
  split; [exact H|].
  apply (days_until_birthday_range (mkdate 2024 1 2)
           (mkField (mkdate 1990 1 1)) 365); [vm_compute; reflexivity|exact H].
Defined.

(** X9: for a real date [today], the number of days is 0 exactly for a
    birthday whose month and day are today's. *)
Theorem days_until_birthday_today today b d :
  valid_date today ->
  days_until_birthday today b = Ok d ->
  d = 0 <-> month (value b) = month today /\ day (value b) = day today.
Proof.
  intros Htoday (Hc & Hcases)%days_until_birthday_Ok.
  unfold toordinal in *. split.
  - intros ->. destruct Hcases as [[_ Heq]|(Hlt & Hc' & Heq)].
    + apply (ymd2ord_inj (year today)); [done|done|lia].
    + pose proof (ymd2ord_bounds _ _ _ Htoday) as Ht.
      pose proof (ymd2ord_bounds _ _ _ Hc') as Hnext.
      rewrite days_before_year_succ in Hnext. lia.
  - intros [Hm Hday]. rewrite Hm, Hday in Hcases.
    destruct Hcases as [[_ ->]|(Hlt & _)]; lia.
Qed.

(** ** The handlers *)

Lemma Phone_validate_truthy phone :
  Phone_validate phone = Ok tt -> truthy phone = true.
Proof. destruct phone; [|done]. vm_compute. discriminate. Qed.

Lemma Phone_init_validate phone :
  Phone_init phone
  = match Phone_validate phone with
    | Ok _ => Ok (mkField phone)
    | Raise e => Raise e
    end.
Proof.
  unfold Phone_init. munfold. by destruct (Phone_validate phone) as [[]|].
Qed.

(** X10: [add_contact] with a name the address book does not have and a
    valid number answers "Contact added.", creates a record with that
    name, that one phone and no birthday, and appends it to the address
    book under the name; further arguments are ignored. *)
Theorem add_contact_new n phone rest σ :
  dict_get n (data σ) = None ->
  Phone_validate phone = Ok tt ->
  add_contact (n :: phone :: rest) σ
  = (Ok (str "Contact added."),
     mkState (<[fresh (dom (heap σ))
                := mkRecord (mkField n) [mkField phone] None]> (heap σ))
             (data σ ++ [(n, fresh (dom (heap σ)))])).
Proof.
  intros Hnew Hvalid.
  unfold add_contact, input_error, add_contact_body, AddressBook_find,
    add_phone_if_given, Record_init, AddressBook_add_record.
  rewrite (Phone_validate_truthy _ Hvalid). munfold. simpl. rewrite Hnew.
  rewrite add_phone_result, Phone_init_validate, Hvalid. simpl.
  rewrite !lookup_total_insert_eq, insert_insert_eq. simpl.
  rewrite dict_setitem_new; [done|]. by apply dict_get_None_keys.
Qed.

(** X11: [add_contact] with a name the address book has and a valid
    number answers "Contact updated." and appends the number to that
    contact's phones; the address book keeps its entries. *)
Theorem add_contact_existing n phone rest l σ :
  dict_get n (data σ) = Some l ->
  Phone_validate phone = Ok tt ->
  add_contact (n :: phone :: rest) σ
  = (Ok (str "Contact updated."),
     mkState (<[l := set_phones (heap σ !!! l)
                       (phones (heap σ !!! l) ++ [mkField phone])]> (heap σ))
             (data σ)).
Proof.
  intros Hold Hvalid.
  unfold add_contact, input_error, add_contact_body, AddressBook_find,
    add_phone_if_given.
  rewrite (Phone_validate_truthy _ Hvalid). munfold. simpl. rewrite Hold.
  by rewrite add_phone_result, Phone_init_validate, Hvalid.
Qed.

(** X12: when [add_contact] answers anything but "Contact added." or
    "Contact updated.", the answer is the usage line or the validation
    message, the address book has the entries it had and every record
    is as it was: no contact is left half made. *)
Theorem add_contact_failure args σ :
  fst (add_contact args σ) ≠ Ok (str "Contact added.") ->
  fst (add_contact args σ) ≠ Ok (str "Contact updated.") ->
  (fst (add_contact args σ) = Ok (str "Usage: add [name] [phone]")
   \/ fst (add_contact args σ) = Ok (str "Phone number must be 10 digits."))
  /\ data (snd (add_contact args σ)) = data σ
  /\ forall l r, heap σ !! l = Some r ->
       heap (snd (add_contact args σ)) !! l = Some r.
Proof.
  destruct args as [|n [|phone rest]]; try (intros _ _; by auto).
  unfold add_contact, input_error, add_contact_body, AddressBook_find,
    add_phone_if_given, Record_init, AddressBook_add_record.
  munfold. simpl.
  destruct (dict_get n (data σ)) as [l|] eqn:Hn; simpl.
  - destruct (truthy phone); simpl; [|done].
    rewrite add_phone_result, Phone_init_validate.
    destruct (Phone_validate_cases phone) as [->| ->]; simpl; [done|].
    intros _ _. auto.
  - destruct (truthy phone); simpl; [|done].
    rewrite add_phone_result, Phone_init_validate.
    destruct (Phone_validate_cases phone) as [->| ->]; simpl; [done|].
    intros _ _. split; [by right|]. split; [done|].
    intros l r Hl. rewrite lookup_insert_ne; [done|].
    intros <-. apply (is_fresh (dom (heap σ))). apply elem_of_dom. by exists r.
Qed.

Lemma change_phone_found n old_phone new_phone l σ :
  dict_get n (data σ) = Some l ->
  change_phone [n; old_phone; new_phone] σ
  = match Record_edit_phone l old_phone new_phone σ with
    | (Ok _, σ') => (Ok (str "Phone number updated."), σ')
    | (Raise (ValueError msg), σ') => (Ok (str msg), σ')
    end.
Proof.
  intros Hn. unfold change_phone, input_error, change_phone_body,
    AddressBook_find. munfold. simpl. rewrite Hn.
  by destruct (Record_edit_phone l old_phone new_phone σ) as [[[]|[msg]] σ'].
Qed.

(** X13: what [change_phone] answers.  With other than three arguments it
    is the usage line, for a name the address book does not have
    "Contact not found.", for a contact without the old number "Phone
    number not found."; in these three cases nothing changes.  Otherwise
    it is "Phone number updated." when the new number is valid and the
    validation message when it is not. *)
Theorem change_phone_reply args σ :
  match args with
  | [n; old_phone; new_phone] =>
      match dict_get n (data σ) with
      | None => change_phone args σ = (Ok (str "Contact not found."), σ)
      | Some l =>
          if bool_decide (old_phone ∈ value <$> phones (heap σ !!! l)) then
            fst (change_phone args σ)
            = Ok (str (match Phone_validate new_phone with
                       | Ok _ => "Phone number updated."
                       | Raise _ => "Phone number must be 10 digits."
                       end))
          else change_phone args σ = (Ok (str "Phone number not found."), σ)
      end
  | _ =>
      change_phone args σ
      = (Ok (str "Usage: change [name] [old_phone] [new_phone]"), σ)
  end.
Proof.
  destruct args as [|n [|old_phone [|new_phone [|]]]]; try reflexivity.
  destruct (dict_get n (data σ)) as [l|] eqn:Hn.
  - rewrite (change_phone_found _ _ _ l) by done.
    destruct (edit_phone_cases l old_phone new_phone σ)
      as [[Hnot ->]|(pre & p & post & Hps & _ & Hp & ->)].
    + by rewrite bool_decide_eq_false_2.
    + rewrite bool_decide_eq_true_2.
      * by destruct (Phone_validate_cases new_phone) as [->| ->].
      * rewrite Hps, fmap_app, fmap_cons. apply elem_of_app. right.
        apply elem_of_cons. by left.
  - unfold change_phone, input_error, change_phone_body, AddressBook_find.
    munfold. simpl. by rewrite Hn.
Qed.

Lemma show_phone_found n l σ :
  dict_get n (data σ) = Some l ->
  show_phone [n] σ
  = (Ok (str "Phone numbers for " ++ n ++ str ": "
         ++ join (str ", ") (value <$> phones (heap σ !!! l))), σ).
Proof.
  intros Hn. unfold show_phone, input_error, show_phone_body,
    AddressBook_find. munfold. simpl. by rewrite Hn.
Qed.

(** X14: [change_phone] with a number the contact has and a new number
    that does not validate answers with the validation message, and yet
    the contact then holds the invalid number: [show_phone] lists it. *)
Theorem change_phone_invalid_shown n old_phone new_phone l σ :
  dict_get n (data σ) = Some l ->
  old_phone ∈ value <$> phones (heap σ !!! l) ->
  Phone_validate new_phone ≠ Ok tt ->
  let σ' := snd (change_phone [n; old_phone; new_phone] σ) in
  fst (change_phone [n; old_phone; new_phone] σ)
  = Ok (str "Phone number must be 10 digits.")
  /\ exists shown,
       fst (show_phone [n] σ')
       = Ok (str "Phone numbers for " ++ n ++ str ": "
             ++ join (str ", ") shown)
       /\ new_phone ∈ shown
       /\ length shown = length (phones (heap σ !!! l)).
Proof.
  intros Hn Hold Hbad σ'. subst σ'.
  rewrite (change_phone_found _ _ _ l) by done.
  destruct (edit_phone_cases l old_phone new_phone σ)
    as [[Hnot _]|(pre & p & post & Hps & _ & Hp & ->)]; [done|].
  destruct (Phone_validate_cases new_phone) as [Hv|Hv]; [done|].
  rewrite Hv. simpl. split; [done|].
  eexists. rewrite (show_phone_found n l) by done. simpl.
  rewrite lookup_total_insert_eq. simpl. split; [reflexivity|]. split.
  - rewrite fmap_app, fmap_cons. apply elem_of_app. right.
    apply elem_of_cons. by left.
  - rewrite Hps, !length_fmap, !length_app. done.
Qed.

Lemma add_birthday_found n s l σ :
  dict_get n (data σ) = Some l ->
  add_birthday [n; s] σ
  = match Birthday_init s with
    | Ok b =>
        (Ok (str "Birthday added."),
         mkState (<[l := set_birthday (heap σ !!! l) (Some b)]> (heap σ))
                 (data σ))
    | Raise _ => (Ok (str "Invalid date format. Use DD.MM.YYYY"), σ)
    end.
Proof.
  intros Hn. unfold add_birthday, input_error, add_birthday_body,
    AddressBook_find, Record_add_birthday, Birthday_init.
  munfold. simpl. rewrite Hn.
  by destruct (strptime s) as [d|[msg]].
Qed.

(** X15: for a contact of the address book, [add_birthday] with a date
    text that parses answers "Birthday added." and [show_birthday] then
    shows the stored date in the form [DD.MM.YYYY]; for the zero-padded
    text of a real date that is the text that was given (a year below
    1000 only where [strftime] pads it). *)
Theorem add_birthday_then_show pad_year n l σ :
  dict_get n (data σ) = Some l ->
  (forall s b,
     Birthday_init s = Ok b ->
     fst (add_birthday [n; s] σ) = Ok (str "Birthday added.")
     /\ fst (show_birthday pad_year [n] (snd (add_birthday [n; s] σ)))
        = Ok (n ++ str "'s birthday is on " ++ strftime pad_year (value b)))
  /\ (forall d,
        valid_date d ->
        pad_year = true \/ 1000 <= year d ->
        fst (show_birthday pad_year [n]
               (snd (add_birthday [n; dmY_text d] σ)))
        = Ok (n ++ str "'s birthday is on " ++ dmY_text d)).
Proof.
  intros Hn.
  assert (Hgen : forall s b,
     Birthday_init s = Ok b ->
     fst (add_birthday [n; s] σ) = Ok (str "Birthday added.")
     /\ fst (show_birthday pad_year [n] (snd (add_birthday [n; s] σ)))
        = Ok (n ++ str "'s birthday is on " ++ strftime pad_year (value b))).
  { intros s b Hb. rewrite (add_birthday_found n s l) by done. rewrite Hb.
    simpl. split; [done|].
    unfold show_birthday, input_error, show_birthday_body, AddressBook_find.
    munfold. simpl. rewrite Hn. simpl.
    by rewrite lookup_total_insert_eq. }
  split; [exact Hgen|]. intros d Hd Hpad.
  assert (Hb : Birthday_init (dmY_text d) = Ok (mkField d)).
  { unfold Birthday_init. by rewrite strptime_dmY_text. }
  destruct (Hgen _ _ Hb) as [_ ->]. simpl.
  rewrite strftime_dmY_text; [done|].
  destruct (valid_date_bounds d Hd) as (Hy & _).
  destruct Hpad as [Hpad|Hpad]; [by left|right; lia].
Qed.

(** X16: [show_phone], [show_birthday] and [birthdays] only read: after
    any of them, whatever the arguments and whatever they answer, the
    address book and the records are as before. *)
Theorem show_handlers_read_only pad_year today args σ :
  snd (show_phone args σ) = σ
  /\ snd (show_birthday pad_year args σ) = σ
  /\ snd (birthdays pad_year today args σ) = σ.
Proof.
  split; [|split].
  - destruct args as [|n [|]]; try reflexivity.
    unfold show_phone, input_error, show_phone_body, AddressBook_find.
    munfold. simpl. by destruct (dict_get n (data σ)).
  - destruct args as [|n [|]]; try reflexivity.
    unfold show_birthday, input_error, show_birthday_body, AddressBook_find.
    munfold. simpl. destruct (dict_get n (data σ)) as [l|]; simpl; [|done].
    by destruct (birthday (heap σ !!! l)).
  - unfold birthdays, input_error, birthdays_body, str_records. munfold.
    pose proof (get_upcoming_birthdays_state today σ) as Hs.
    destruct (AddressBook_get_upcoming_birthdays today σ)
      as [[[|l ls]|[msg]] σ']; simpl in *; by subst σ'.
Qed.

(** X17: with a contact born on a 29 February in the address book and
    today in a year that is not a leap year, [birthdays] lists nobody: it
    answers with the message of the [ValueError] the query raised. *)
Theorem birthdays_leap_day pad_year today args σ k l b :
  (k, l) ∈ data σ ->
  birthday (heap σ !!! l) = Some b ->
  month (value b) = 2 -> day (value b) = 29 ->
  is_leap (year today) = false ->
  exists msg,
    AddressBook_get_upcoming_birthdays today σ = (Raise (ValueError msg), σ)
    /\ birthdays pad_year today args σ = (Ok (str msg), σ).
Proof.
  intros Hin Hb Hm Hd Hleap.
  pose proof (get_upcoming_birthdays_leap_day today σ k l b Hin Hb Hm Hd Hleap)
    as Hraise.
  pose proof (get_upcoming_birthdays_state today σ) as Hs.
  unfold birthdays, input_error, birthdays_body. munfold.
  destruct (AddressBook_get_upcoming_birthdays today σ)
    as [[ls|[msg]] σ']; simpl in *; [done|]. subst σ'. by exists msg.
Qed.

(** ** The states of the command loop *)

Lemma reachable_entry_allocated σ n l :
  reachable σ -> dict_get n (data σ) = Some l -> l ∈ dom (heap σ).
Proof.
  intros Hreach Hn%dict_get_Some_elem.
  destruct (reachable_keyed_by_name σ Hreach n l Hn) as (r & Hl & _).
  apply elem_of_dom. by exists r.
Qed.

Lemma reachable_run_ref σ o l :
  reachable σ -> op_ref o = Some l -> l ∈ dom (heap σ) ->
  reachable (snd (run o σ)).
Proof.
  intros Hreach Hl Hdom. apply reachable_run; [done|].
  intros l' Hl'. congruence.
Qed.

Lemma run_allocated o σ l :
  l ∈ dom (heap σ) -> l ∈ dom (heap (snd (run o σ))).
Proof.
  intros [r Hl]%elem_of_dom.
  destruct (run_names_kept o σ l r Hl) as (r' & Hl' & _).
  apply elem_of_dom. by exists r'.
Qed.

Lemma add_contact_result n phone rest σ :
  add_contact (n :: phone :: rest) σ
  = match dict_get n (data σ) with
    | Some l =>
        if truthy phone then
          match Record_add_phone l phone σ with
          | (Ok _, σ') => (Ok (str "Contact updated."), σ')
          | (Raise (ValueError msg), σ') => (Ok (str msg), σ')
          end
        else (Ok (str "Contact updated."), σ)
    | None =>
        let l := fresh (dom (heap σ)) in
        let σ1 := snd (run (NewRecord n) σ) in
        if truthy phone then
          match Record_add_phone l phone σ1 with
          | (Ok _, σ2) =>
              (Ok (str "Contact added."), snd (run (AddRecord l) σ2))
          | (Raise (ValueError msg), σ2) => (Ok (str msg), σ2)
          end
        else (Ok (str "Contact added."), snd (run (AddRecord l) σ1))
    end.
Proof.
  unfold add_contact, input_error, add_contact_body, AddressBook_find,
    add_phone_if_given.
  munfold. simpl.
  destruct (dict_get n (data σ)) as [l|]; simpl.
  - destruct (truthy phone); [|done].
    by destruct (Record_add_phone l phone σ) as [[[]|[msg]] σ'].
  - destruct (truthy phone); [|done].
    by destruct (Record_add_phone _ phone _) as [[[]|[msg]] σ'].
Qed.

Lemma add_contact_reachable args σ :
  reachable σ -> reachable (snd (add_contact args σ)).
Proof.
  intros Hreach. destruct args as [|n [|phone rest]]; try done.
  rewrite add_contact_result.
  destruct (dict_get n (data σ)) as [l|] eqn:Hn.
  - assert (Hl : l ∈ dom (heap σ)) by by eapply reachable_entry_allocated.
    pose proof (reachable_run_ref σ (AddPhone l phone) l Hreach eq_refl Hl)
      as Hstep. simpl in Hstep.
    destruct (truthy phone); [|done].
    by destruct (Record_add_phone l phone σ) as [[[]|[msg]] σ'].
  - cbv zeta.
    assert (H1 : reachable (snd (run (NewRecord n) σ))).
    { apply reachable_run; [done|]. intros ? [=]. }
    assert (Hl1 : fresh (dom (heap σ))
                  ∈ dom (heap (snd (run (NewRecord n) σ)))).
    { apply elem_of_dom. eexists. apply lookup_insert_eq. }
    generalize dependent (snd (run (NewRecord n) σ)). intros σ1 H1 Hl1.
    generalize dependent (fresh (dom (heap σ))). intros l Hl1.
    destruct (truthy phone).
    + pose proof (reachable_run_ref σ1 (AddPhone l phone) l H1 eq_refl Hl1)
        as H2.
      pose proof (run_allocated (AddPhone l phone) σ1 l Hl1) as Hl2.
      simpl in H2, Hl2.
      destruct (Record_add_phone l phone σ1) as [[[]|[msg]] σ2];
        simpl in *; [|done].
      apply (reachable_run_ref σ2 (AddRecord l) l H2 eq_refl Hl2).
    + simpl. apply (reachable_run_ref σ1 (AddRecord l) l H1 eq_refl Hl1).
Qed.

Lemma change_phone_reachable args σ :
  reachable σ -> reachable (snd (change_phone args σ)).
Proof.
  intros Hreach.
  destruct args as [|n [|old_phone [|new_phone [|]]]]; try done.
  destruct (dict_get n (data σ)) as [l|] eqn:Hn.
  - rewrite (change_phone_found _ _ _ l) by done.
    assert (Hl : l ∈ dom (heap σ)) by by eapply reachable_entry_allocated.
    pose proof (reachable_run_ref σ (EditPhone l old_phone new_phone) l
                  Hreach eq_refl Hl) as Hstep. simpl in Hstep.
    by destruct (Record_edit_phone l old_phone new_phone σ)
      as [[[]|[msg]] σ'].
  - unfold change_phone, input_error, change_phone_body, AddressBook_find.
    munfold. simpl. by rewrite Hn.
Qed.

Lemma add_birthday_reachable args σ :
  reachable σ -> reachable (snd (add_birthday args σ)).
Proof.
  intros Hreach. destruct args as [|n [|s [|]]]; try done.
  destruct (dict_get n (data σ)) as [l|] eqn:Hn.
  - assert (Hl : l ∈ dom (heap σ)) by by eapply reachable_entry_allocated.
    pose proof (reachable_run_ref σ (AddBirthday l s) l Hreach eq_refl Hl)
      as Hstep. simpl in Hstep.
    unfold add_birthday, input_error, add_birthday_body, AddressBook_find.
    munfold. simpl. rewrite Hn.
    by destruct (Record_add_birthday l s σ) as [[[]|[msg]] σ'].
  - unfold add_birthday, input_error, add_birthday_body, AddressBook_find.
    munfold. simpl. by rewrite Hn.
Qed.

Lemma show_phone_state args σ : snd (show_phone args σ) = σ.
Proof.
  destruct args as [|n [|]]; try reflexivity.
  unfold show_phone, input_error, show_phone_body, AddressBook_find.
  munfold. simpl. by destruct (dict_get n (data σ)).
Qed.

Lemma show_birthday_state pad_year args σ :
  snd (show_birthday pad_year args σ) = σ.
Proof.
  destruct args as [|n [|]]; try reflexivity.
  unfold show_birthday, input_error, show_birthday_body, AddressBook_find.
  munfold. simpl. destruct (dict_get n (data σ)) as [l|]; simpl; [|done].
  by destruct (birthday (heap σ !!! l)).
Qed.

Lemma birthdays_state pad_year today args σ :
  snd (birthdays pad_year today args σ) = σ.
Proof.
  unfold birthdays, input_error, birthdays_body, str_records. munfold.
  pose proof (get_upcoming_birthdays_state today σ) as Hs.
  destruct (AddressBook_get_upcoming_birthdays today σ)
    as [[[|l ls]|[msg]] σ']; simpl in *; by subst σ'.
Qed.

Lemma printed_state r : snd (printed r) = snd r.
Proof. by destruct r as [[text|e] σ]. Qed.

Lemma dispatch_reachable pad_year today user_input σ :
  reachable σ -> reachable (snd (dispatch pad_year today user_input σ)).
Proof.
  intros Hreach. unfold dispatch.
  destruct (parse_input user_input) as [|command args]; [done|].
  repeat match goal with
  | |- context [if ?c then _ else _] => destruct c; simpl; try done
  end; rewrite printed_state.
  - by apply add_contact_reachable.
  - by apply change_phone_reachable.
  - by rewrite show_phone_state.
  - by apply add_birthday_reachable.
  - by rewrite show_birthday_state.
  - by rewrite birthdays_state.
Qed.

Lemma main_loop_saved pad_year inputs : forall σ out book,
  reachable σ ->
  main_loop pad_year inputs σ = (out, Saved book) ->
  reachable book.
Proof.
  induction inputs as [|[user_input today] inputs IH]; intros σ out book Hreach;
    simpl; [done|].
  pose proof (dispatch_reachable pad_year today user_input σ Hreach) as Hstep.
  destruct (dispatch pad_year today user_input σ) as [[text| |e] σ'];
    simpl in *.
  - destruct (main_loop pad_year inputs σ') as [out' o] eqn:Hloop.
    intros [= _ ->]. by eapply IH.
  - by intros [= _ <-].
  - done.
Qed.

(** X18: the address book [main] hands to [save_data] was built by the
    calls of the two classes alone, so whatever was typed: the key of each
    entry is the name of its record, no two entries have the same name,
    and every birthday is a date of the calendar. *)
Theorem main_saves_consistent pad_year book inputs out book' :
  reachable book ->
  main pad_year book inputs = (out, Saved book') ->
  reachable book'
  /\ (forall k l, (k, l) ∈ data book' ->
        value (name (heap book' !!! l)) = k)
  /\ NoDup (dict_keys (data book'))
  /\ birthdays_valid book'.
Proof.
  intros Hreach. unfold main.
  destruct (main_loop pad_year inputs book) as [out' o] eqn:Hloop.
  intros [= _ ->].
  assert (Hbook' : reachable book') by by eapply main_loop_saved.
  split; [done|]. split; [|split].
  - intros k l Hin.
    destruct (reachable_keyed_by_name book' Hbook' k l Hin) as (r & Hl & Hk).
    by rewrite (lookup_total_correct _ _ _ Hl).
  - by apply reachable_keys_NoDup.
  - by apply reachable_birthdays.
Qed.

(** ** [parse_input] *)

Lemma truthy_true w : truthy w = true <-> w ≠ [].
Proof. by destruct w. Qed.

Lemma split_from_words s : forall word,
  Forall (fun c => Py_UNICODE_ISSPACE c = false) word ->
  Forall is_word (split_from word s).
Proof.
  induction s as [|c s IH]; intros word Hword; simpl.
  - destruct word; simpl; [constructor|].
    constructor; [by split|constructor].
  - destruct (Py_UNICODE_ISSPACE c) eqn:Hc.
    + destruct word as [|c0 word]; simpl; [by apply IH|].
      constructor; [by split|]. by apply IH.
    + apply IH. apply Forall_app. split; [done|]. by repeat constructor.
Qed.

Lemma split_from_concat s : forall word,
  concat (split_from word s)
  = word ++ List.filter (fun c => negb (Py_UNICODE_ISSPACE c)) s.
Proof.
  induction s as [|c s IH]; intros word; simpl.
  - destruct word; simpl; [done|]. by rewrite !app_nil_r.
  - destruct (Py_UNICODE_ISSPACE c) eqn:Hc; simpl.
    + destruct word as [|c0 word]; simpl; by rewrite IH.
    + by rewrite IH, <- app_assoc.
Qed.

Lemma split_from_nil s : forall word,
  split_from word s = []
  <-> word = [] /\ Forall (fun c => Py_UNICODE_ISSPACE c = true) s.
Proof.
  induction s as [|c s IH]; intros word; simpl.
  - destruct word; simpl; split; try done. by intros [? _].
  - destruct (Py_UNICODE_ISSPACE c) eqn:Hc.
    + destruct word as [|c0 word]; simpl.
      * rewrite IH, Forall_cons. tauto.
      * split; [done|]. by intros [? _].
    + rewrite IH, Forall_cons. split.
      * intros [Hw _]. by destruct word.
      * intros [_ [? _]]. congruence.
Qed.

(** X19: every item [parse_input] returns is a word, not empty and
    without white space; together the items are the input with its white
    space taken out; and there is no item exactly when the input is empty
    or all white space. *)
Theorem parse_input_words user_input :
  Forall is_word (parse_input user_input)
  /\ concat (parse_input user_input)
     = List.filter (fun c => negb (Py_UNICODE_ISSPACE c)) user_input
  /\ (parse_input user_input = []
      <-> Forall (fun c => Py_UNICODE_ISSPACE c = true) user_input).
Proof.
  unfold parse_input. split; [|split].
  - apply split_from_words. constructor.
  - apply split_from_concat.
  - rewrite split_from_nil. tauto.
Qed.

Lemma split_from_word_prefix u : forall word s,
  Forall (fun c => Py_UNICODE_ISSPACE c = false) u ->
  split_from word (u ++ s) = split_from (word ++ u) s.
Proof.
  induction u as [|c u IH]; intros word s Hu; simpl.
  - by rewrite app_nil_r.
  - apply Forall_cons in Hu as [Hc Hu]. rewrite Hc, IH by done.
    by rewrite <- app_assoc.
Qed.

(** X20: words joined by single spaces are what [parse_input] gives
    back: a command line is split into the words that were typed. *)
Theorem parse_input_join words :
  Forall is_word words ->
  parse_input (join (str " ") words) = words.
Proof.
  unfold parse_input. induction 1 as [|w words [Hne Hw] Hwords IH]; [done|].
  simpl. destruct words as [|w' words].
  - pose proof (split_from_word_prefix w [] [] Hw) as Hsplit.
    rewrite app_nil_r in Hsplit. rewrite Hsplit. simpl. by destruct w.
  - rewrite split_from_word_prefix by done. simpl.
    change (Py_UNICODE_ISSPACE 32) with true. cbv iota.
    destruct w as [|c w]; [done|]. simpl. f_equal. exact IH.
Qed.

(** ["add Ann 0123456789"] *)
Lemma parse_input_join_example :
  parse_input (str "add Ann 0123456789")
  = [str "add"; str "Ann"; str "0123456789"].
Proof.
  apply (parse_input_join [str "add"; str "Ann"; str "0123456789"]).
  repeat constructor; discriminate.
Defined.

(** ** [main] *)

(** X21: a line that is empty or all white space ends the program: the
    unpacking of the empty list raises [ValueError], which nothing
    catches; nothing more is printed, the rest of the input is not read
    and the address book is not saved. *)
Theorem main_loop_blank_line pad_year user_input today inputs σ :
  Forall (fun c => Py_UNICODE_ISSPACE c = true) user_input ->
  main_loop pad_year ((user_input, today) :: inputs) σ
  = ([PROMPT],
     Crashed (UncaughtExn
       (ValueError "not enough values to unpack (expected at least 1, got 0)"))).
Proof.
  intros Hblank.
  assert (Hparse : parse_input user_input = []).
  { by apply (split_from_nil user_input []). }
  simpl. unfold dispatch. by rewrite Hparse.
Qed.

Lemma main_loop_blank_line_example :
  main_loop false [(str "   ", mkdate 2024 12 28);
                   (str "exit", mkdate 2024 12 28)] st_two
  = ([PROMPT],
     Crashed (UncaughtExn
       (ValueError "not enough values to unpack (expected at least 1, got 0)"))).
Proof. apply main_loop_blank_line. repeat constructor. Defined.

(** The command [all] ends the program for every address book and
    whatever follows it on the line: [show_all_contacts(book)] calls the
    wrapper of [input_error] with one argument instead of two, so
    [TypeError] is raised outside any handler; no contact is listed and
    the address book is not saved. *)
Theorem main_loop_all pad_year user_input args today inputs σ :
  parse_input user_input = str "all" :: args ->
  main_loop pad_year ((user_input, today) :: inputs) σ
  = ([PROMPT],
     Crashed (UncaughtTypeError MISSING_BOOK)).
Proof. intros Hparse. simpl. unfold dispatch. by rewrite Hparse. Qed.

Lemma main_loop_all_example :
  main_loop false [(str "all", mkdate 2024 12 28);
                   (str "exit", mkdate 2024 12 28)] st_two
  = ([PROMPT],
     Crashed (UncaughtTypeError MISSING_BOOK)).
Proof. apply (main_loop_all false (str "all") []). reflexivity. Defined.

(** X22: the address book is saved only by [close] or [exit]: a run whose
    input has no such line ends with an uncaught exception (at the latest
    [EOFError] at the end of the input) and saves nothing. *)
Theorem main_without_close pad_year book inputs :
  Forall (fun line => ¬ closes (fst line)) inputs ->
  exists e, snd (main pad_year book inputs) = Crashed e.
Proof.
  intros Hno. unfold main.
  assert (Hloop : forall σ, exists e,
            snd (main_loop pad_year inputs σ) = Crashed e).
  { induction Hno as [|[user_input today] inputs Hline _ IH]; intros σ.
    - by exists UncaughtEOFError.
    - simpl.
      destruct (dispatch pad_year today user_input σ) as [[text| |e] σ']
        eqn:Hd.
      + destruct (IH σ') as [e He].
        destruct (main_loop pad_year inputs σ') as [out o]. by exists e.
      + exfalso. apply Hline. simpl. unfold dispatch in Hd.
        destruct (parse_input user_input) as [|command args] eqn:Hp;
          [done|].
        exists command, args. split; [exact Hp|].
        unfold is_command in Hd.
        destruct (decide (command = str "close")) as [->|Hc]; [by left|].
        destruct (decide (command = str "exit")) as [->|He]; [by right|].
        rewrite !bool_decide_eq_false_2 in Hd by done. simpl in Hd.
        repeat match type of Hd with
        | context [if ?c then _ else _] => destruct c; try done
        end;
        match type of Hd with
        | (printed ?r = _) => by destruct r as [[?|?] ?]
        end.
      + by exists e. }
  destruct (Hloop book) as [e He].
  destruct (main_loop pad_year inputs book) as [out o]. by exists e.
Qed.

Lemma main_without_close_example :
  exists e,
    snd (main false st_two [(str "hello", mkdate 2024 12 28);
                            (str "phone Ann", mkdate 2024 12 28)])
    = Crashed e.
Proof.
  apply main_without_close.
  repeat constructor; simpl; intros (c & args & Hp & Hc);
    vm_compute in Hp; injection Hp as <- _; destruct Hc; discriminate.
Defined.

(** ** Examples *)

(** Storing Ann's record again keeps the names in their order; Bob is
    found as before. *)
Lemma add_record_then_find_example :
  fst (AddressBook_find (str "Bob")
         (snd (AddressBook_add_record 0%nat st_two)))
  = fst (AddressBook_find (str "Bob") st_two).
Proof.
  apply (add_record_then_find 0%nat st_two). vm_compute. discriminate.
Defined.

Lemma add_record_upsert_example :
  dict_keys (data (snd (AddressBook_add_record 0%nat st_two)))
  = dict_keys (data st_two).
Proof.
  apply (add_record_upsert 0%nat st_two). vm_compute.
  apply elem_of_cons. by left.
Defined.

(** On 15 June 2024 a birthday on a 15 June is 0 days ahead. *)
Lemma days_until_birthday_today_example :
  days_until_birthday (mkdate 2024 6 15) (mkField (mkdate 1990 6 15)) = Ok 0.
Proof.
  destruct (days_until_birthday (mkdate 2024 6 15) (mkField (mkdate 1990 6 15)))
    as [d|e] eqn:Hd; [|vm_compute in Hd; discriminate Hd].
  f_equal.
  apply (days_until_birthday_today (mkdate 2024 6 15)
           (mkField (mkdate 1990 6 15)) d); [reflexivity|exact Hd|].
  split; reflexivity.
Defined.

(** [add Cid 0123456789], [add Ann 0123456789] and [add Ann 12] in the
    address book of Ann and Bob. *)
Lemma add_contact_new_example :
  fst (add_contact [str "Cid"; str "0123456789"] st_two)
  = Ok (str "Contact added.").
Proof.
  rewrite (add_contact_new (str "Cid") (str "0123456789") [] st_two);
    [reflexivity| |]; vm_compute; reflexivity.
Defined.

Lemma add_contact_existing_example :
  fst (add_contact [str "Ann"; str "0123456789"] st_two)
  = Ok (str "Contact updated.").
Proof.
  rewrite (add_contact_existing (str "Ann") (str "0123456789") [] 0%nat
             st_two); [reflexivity| |]; vm_compute; reflexivity.
Defined.

Lemma add_contact_failure_example :
  data (snd (add_contact [str "Ann"; str "12"] st_two)) = data st_two.
Proof.
  apply (add_contact_failure [str "Ann"; str "12"] st_two);
    vm_compute; discriminate.
Defined.

(** [change Ann 1111111111 12]: the answer is the validation message, and
    [phone Ann] then shows [12]. *)
Lemma change_phone_invalid_shown_example :
  fst (change_phone [str "Ann"; str "1111111111"; str "12"] st_phone)
  = Ok (str "Phone number must be 10 digits.").
Proof.
  apply (change_phone_invalid_shown (str "Ann") (str "1111111111") (str "12")
           0%nat st_phone).
  - vm_compute. reflexivity.
  - vm_compute. apply elem_of_cons. by left.
  - vm_compute. discriminate.
Defined.

(** [add-birthday Ann 02.01.1990], then [show-birthday Ann]. *)
Lemma add_birthday_then_show_example :
  fst (show_birthday false [str "Ann"]
         (snd (add_birthday [str "Ann"; str "02.01.1990"] st_phone)))
  = Ok (str "Ann's birthday is on 02.01.1990").
Proof.
  destruct (add_birthday_then_show false (str "Ann") 0%nat st_phone)
    as [_ Hpadded]; [vm_compute; reflexivity|].
  apply (Hpadded (mkdate 1990 1 2)); [vm_compute; reflexivity|].
  right. simpl. lia.
Defined.

(** [birthdays] on 1 March 2023 with Eve, born on 29 February 2000. *)
Lemma birthdays_leap_day_example :
  exists msg,
    AddressBook_get_upcoming_birthdays (mkdate 2023 3 1) st_leap_day
    = (Raise (ValueError msg), st_leap_day)
    /\ birthdays false (mkdate 2023 3 1) [] st_leap_day
       = (Ok (str msg), st_leap_day).
Proof.
  apply (birthdays_leap_day false (mkdate 2023 3 1) [] st_leap_day
           (str "Eve") 0%nat (mkField (mkdate 2000 2 29))).
  - vm_compute. apply elem_of_cons. by left.
  - vm_compute. reflexivity.
  - reflexivity.
  - reflexivity.
  - reflexivity.
Defined.

(** A session that adds Ann and exits. *)
Lemma main_saves_consistent_example :
  exists out book,
    main false empty_state [(str "add Ann 0123456789", mkdate 2024 12 28);
                            (str "exit", mkdate 2024 12 28)]
    = (out, Saved book)
    /\ NoDup (dict_keys (data book)).
Proof.
  set (r := main false empty_state
              [(str "add Ann 0123456789", mkdate 2024 12 28);
               (str "exit", mkdate 2024 12 28)]).
  exists (fst r),
    (match snd r with Saved book => book | Crashed _ => empty_state end).
  assert (Hr : r = (fst r, Saved (match snd r with
                                  | Saved book => book
                                  | Crashed _ => empty_state
                                  end))) by (vm_compute; reflexivity).
  split; [exact Hr|].
  apply (main_saves_consistent false empty_state _ _ _ reachable_empty Hr).
Defined.

(** ** More on the command loop *)

(** X23: [show_phone] after [add_contact] with a valid number: for a new
    name it shows that number alone; for a name the address book has it
    shows the numbers the contact had, then the new one. *)
Theorem add_contact_then_show_phone n phone rest σ :
  Phone_validate phone = Ok tt ->
  fst (show_phone [n] (snd (add_contact (n :: phone :: rest) σ)))
  = Ok (str "Phone numbers for " ++ n ++ str ": "
        ++ join (str ", ")
             (match dict_get n (data σ) with
              | Some l => (value <$> phones (heap σ !!! l)) ++ [phone]
              | None => [phone]
              end)).
Proof.
  intros Hvalid. rewrite add_contact_result.
  rewrite (Phone_validate_truthy _ Hvalid).
  destruct (dict_get n (data σ)) as [l|] eqn:Hn.
  - rewrite add_phone_result, Phone_init_validate, Hvalid. cbn [snd].
    rewrite (show_phone_found n l) by done. cbn [fst heap].
    rewrite lookup_total_insert_eq. cbn [phones set_phones].
    by rewrite fmap_app.
  - cbv zeta. rewrite add_phone_result, Phone_init_validate, Hvalid.
    cbn [snd]. set (l := fresh (dom (heap σ))).
    assert (Hrec : run (NewRecord n) σ
                   = (Ok tt,
                      mkState (<[l := mkRecord (mkField n) [] None]> (heap σ))
                              (data σ))) by reflexivity.
    rewrite Hrec. cbn [snd heap data phones set_phones].
    rewrite lookup_total_insert_eq, insert_insert_eq.
    cbn [phones name birthday app].
    assert (Hadd : forall σ2,
              snd (run (AddRecord l) σ2)
              = mkState (heap σ2)
                  (dict_setitem (value (name (heap σ2 !!! l))) l (data σ2)))
      by reflexivity.
    rewrite Hadd. cbn [heap data]. rewrite lookup_total_insert_eq.
    cbn [name value].
    rewrite (show_phone_found n l) by apply dict_get_setitem.
    cbn [fst heap]. by rewrite lookup_total_insert_eq.
Qed.

Lemma add_contact_then_show_phone_example :
  fst (show_phone [str "Ann"]
         (snd (add_contact [str "Ann"; str "2222222222"] st_phone)))
  = Ok (str "Phone numbers for Ann: 1111111111, 2222222222").
Proof.
  rewrite (add_contact_then_show_phone (str "Ann") (str "2222222222") []
             st_phone); vm_compute; reflexivity.
Defined.

(** The wrapper of [input_error] always returns a text: what a handler
    raises never reaches [main]. *)
Lemma printed_input_error func σ :
  exists text σ', printed (input_error func σ) = (Printed text, σ').
Proof.
  unfold input_error. destruct (func σ) as [[text|[msg]] σ']; simpl; eauto.
Qed.

Lemma dispatch_died pad_year today user_input σ e σ' :
  dispatch pad_year today user_input σ = (Died e, σ') -> loop_crash e.
Proof.
  unfold dispatch, loop_crash.
  destruct (parse_input user_input) as [|command args].
  - intros [= <- _]. by left.
  - repeat match goal with
    | |- context [if ?c then _ else _] => destruct c; try done
    end;
    try (intros [= <- _]; by right);
    match goal with
    | |- printed (?h ?σ0) = _ -> _ =>
        let H := fresh in
        destruct (printed_input_error
                    ltac:(match h with
                          | add_contact ?a => exact (add_contact_body a)
                          | change_phone ?a => exact (change_phone_body a)
                          | show_phone ?a => exact (show_phone_body a)
                          | add_birthday ?a => exact (add_birthday_body a)
                          | show_birthday ?p ?a =>
                              exact (show_birthday_body p a)
                          | birthdays ?p ?t ?a => exact (birthdays_body p t a)
                          end) σ0) as (text & σ'' & H);
        unfold add_contact, change_phone, show_phone, add_birthday,
          show_birthday, birthdays; rewrite H; done
    end.
Qed.

(** What [main] does with lines none of which is [close] or [exit]: it
    crashes on one of them, or goes on with the rest. *)
Lemma main_loop_prefix pad_year pre : forall inputs σ,
  Forall (fun line => ¬ closes (fst line)) pre ->
  (exists e, snd (main_loop pad_year (pre ++ inputs) σ) = Crashed e
             /\ loop_crash e)
  \/ (exists σ', snd (main_loop pad_year (pre ++ inputs) σ)
                = snd (main_loop pad_year inputs σ')).
Proof.
  induction pre as [|[user_input today] pre IH]; intros inputs σ Hpre.
  - right. by exists σ.
  - apply Forall_cons in Hpre as [Hline Hpre]. simpl.
    destruct (dispatch pad_year today user_input σ) as [[text| |e] σ']
      eqn:Hd.
    + destruct (IH inputs σ' Hpre) as [(e & He & Hk)|[σ'' Hσ'']].
      * left. exists e.
        by destruct (main_loop pad_year (pre ++ inputs) σ').
      * right. exists σ''.
        by destruct (main_loop pad_year (pre ++ inputs) σ').
    + exfalso. apply Hline. simpl. unfold dispatch in Hd.
      destruct (parse_input user_input) as [|command args] eqn:Hp; [done|].
      exists command, args. split; [exact Hp|].
      unfold is_command in Hd.
      destruct (decide (command = str "close")) as [->|Hc]; [by left|].
      destruct (decide (command = str "exit")) as [->|He]; [by right|].
      rewrite !bool_decide_eq_false_2 in Hd by done. simpl in Hd.
      repeat match type of Hd with
      | context [if ?c then _ else _] => destruct c; try done
      end;
      match type of Hd with
      | (printed ?r = _) => by destruct r as [[?|?] ?]
      end.
    + left. exists e. split; [done|]. by eapply dispatch_died.
Qed.

(** X24: a blank line, or a line whose first word is [all], that comes
    before any [close] or [exit] loses the session: whatever was done
    before it and whatever follows it in the input, the program ends
    without saving, with the [ValueError] of the unpacking or the
    [TypeError] of the call [show_all_contacts(book)]; the handlers
    themselves let no exception through. *)
Theorem main_session_lost pad_year book pre user_input today inputs :
  Forall (fun line => ¬ closes (fst line)) pre ->
  Forall (fun c => Py_UNICODE_ISSPACE c = true) user_input
  \/ (exists args, parse_input user_input = str "all" :: args) ->
  exists e,
    snd (main pad_year book (pre ++ (user_input, today) :: inputs))
    = Crashed e
    /\ loop_crash e.
Proof.
  intros Hpre Hline. unfold main.
  assert (Hdies : forall σ, exists e,
            snd (main_loop pad_year ((user_input, today) :: inputs) σ)
            = Crashed e /\ loop_crash e).
  { intros σ. simpl. unfold dispatch, loop_crash.
    destruct Hline as [Hblank|[args Hall]].
    - assert (Hparse : parse_input user_input = []).
      { by apply (split_from_nil user_input []). }
      rewrite Hparse. eauto.
    - rewrite Hall. simpl. eauto. }
  destruct (main_loop_prefix pad_year pre ((user_input, today) :: inputs)
              book Hpre) as [(e & He & Hk)|[σ' Hσ']].
  - exists e. by destruct (main_loop pad_year _ book).
  - destruct (Hdies σ') as (e & He & Hk). exists e. split; [|done].
    rewrite <- He, <- Hσ'. by destruct (main_loop pad_year _ book).
Qed.

Lemma main_session_lost_example :
  exists e,
    snd (main false empty_state
           ([(str "add Ann 0123456789", mkdate 2024 12 28)]
            ++ (str "all", mkdate 2024 12 28)
               :: [(str "exit", mkdate 2024 12 28)]))
    = Crashed e
    /\ loop_crash e.
Proof.
  apply main_session_lost.
  - repeat constructor. simpl. intros (c & args & Hp & Hc).
    vm_compute in Hp. injection Hp as <- _. destruct Hc; discriminate.
  - right. exists []. reflexivity.
Defined.

(** *** No command removes a contact *)

Lemma run_AddRecord_data l σ :
  data (snd (run (AddRecord l) σ))
  = dict_setitem (value (name (heap σ !!! l))) l (data σ).
Proof. reflexivity. Qed.

Lemma run_NewRecord n σ :
  run (NewRecord n) σ
  = (Ok tt,
     mkState (<[fresh (dom (heap σ)) := mkRecord (mkField n) [] None]>
                (heap σ))
             (data σ)).
Proof. reflexivity. Qed.

Lemma add_contact_keeps_entry args σ n l :
  dict_get n (data σ) = Some l ->
  dict_get n (data (snd (add_contact args σ))) = Some l.
Proof.
  intros Hn. destruct args as [|n0 [|phone rest]]; try done.
  rewrite add_contact_result.
  destruct (dict_get n0 (data σ)) as [l0|] eqn:Hn0.
  - destruct (truthy phone); [|done]. rewrite add_phone_result.
    by destruct (Phone_init phone) as [p|[msg]].
  - assert (Hne : n ≠ n0) by congruence. cbv zeta.
    rewrite run_NewRecord. cbn [snd].
    destruct (truthy phone).
    + rewrite add_phone_result.
      destruct (Phone_init phone) as [p|[msg]]; cbn [snd data]; [|done].
      rewrite run_AddRecord_data. cbn [heap data].
      rewrite (lookup_total_insert_eq (M := gmap nat)).
      cbn [name set_phones].
      rewrite (lookup_total_insert_eq (M := gmap nat)). cbn [name value].
      by rewrite dict_get_setitem_ne.
    + cbn [snd]. rewrite run_AddRecord_data. cbn [heap data].
      rewrite (lookup_total_insert_eq (M := gmap nat)). cbn [name value].
      by rewrite dict_get_setitem_ne.
Qed.

Lemma change_phone_data args σ : data (snd (change_phone args σ)) = data σ.
Proof.
  destruct args as [|n [|old_phone [|new_phone [|]]]]; try done.
  destruct (dict_get n (data σ)) as [l|] eqn:Hn.
  - rewrite (change_phone_found _ _ _ l) by done.
    destruct (edit_phone_cases l old_phone new_phone σ)
      as [[_ ->]|(pre & p & post & _ & _ & _ & ->)]; [done|].
    by destruct (Phone_validate new_phone) as [[]|[msg]].
  - unfold change_phone, input_error, change_phone_body, AddressBook_find.
    munfold. simpl. by rewrite Hn.
Qed.

Lemma add_birthday_data args σ : data (snd (add_birthday args σ)) = data σ.
Proof.
  destruct args as [|n [|s [|]]]; try done.
  destruct (dict_get n (data σ)) as [l|] eqn:Hn.
  - rewrite (add_birthday_found n s l) by done.
    by destruct (Birthday_init s).
  - unfold add_birthday, input_error, add_birthday_body, AddressBook_find.
    munfold. simpl. by rewrite Hn.
Qed.

Lemma dispatch_keeps_entry pad_year today user_input σ n l :
  dict_get n (data σ) = Some l ->
  dict_get n (data (snd (dispatch pad_year today user_input σ))) = Some l.
Proof.
  intros Hn. unfold dispatch.
  destruct (parse_input user_input) as [|command args]; [done|].
  repeat match goal with
  | |- context [if ?c then _ else _] => destruct c; simpl; try done
  end; rewrite printed_state.
  - by apply add_contact_keeps_entry.
  - by rewrite change_phone_data.
  - by rewrite show_phone_state.
  - by rewrite add_birthday_data.
  - by rewrite show_birthday_state.
  - by rewrite birthdays_state.
Qed.

(** X25: no command removes or replaces a contact: a name the address
    book has when [main] starts is in the address book that is saved,
    bound to the same record object. *)
Theorem main_keeps_contacts pad_year book inputs out book' n l :
  main pad_year book inputs = (out, Saved book') ->
  dict_get n (data book) = Some l ->
  dict_get n (data book') = Some l.
Proof.
  unfold main.
  destruct (main_loop pad_year inputs book) as [out' o] eqn:Hloop.
  intros [= _ ->]. revert book out' Hloop.
  induction inputs as [|[user_input today] inputs IH];
    intros book out' Hloop Hn; simpl in Hloop; [done|].
  pose proof (dispatch_keeps_entry pad_year today user_input book n l Hn)
    as Hstep.
  destruct (dispatch pad_year today user_input book) as [[text| |e] σ'];
    simpl in *.
  - destruct (main_loop pad_year inputs σ') as [out'' o] eqn:Hrest.
    injection Hloop as _ ->. by eapply IH.
  - by injection Hloop as _ <-.
  - done.
Qed.

Lemma main_keeps_contacts_example :
  exists out book,
    main false st_two [(str "add Ann 1", mkdate 2024 12 28);
                       (str "close", mkdate 2024 12 28)]
    = (out, Saved book)
    /\ dict_get (str "Bob") (data book) = Some 1%nat.
Proof.
  set (r := main false st_two [(str "add Ann 1", mkdate 2024 12 28);
                                (str "close", mkdate 2024 12 28)]).
  exists (fst r),
    (match snd r with Saved book => book | Crashed _ => empty_state end).
  assert (Hr : r = (fst r, Saved (match snd r with
                                  | Saved book => book
                                  | Crashed _ => empty_state
                                  end))) by (vm_compute; reflexivity).
  split; [exact Hr|].
  apply (main_keeps_contacts false st_two _ _ _ (str "Bob") 1%nat Hr).
  vm_compute. reflexivity.
Defined.
